(** * The acknowledgement buffer of go-uspclient (ack_buffer.go)

    A shallow embedding of [AckBuffer] and its methods, and the properties
    of the buffer that its specification states.

    Conventions of the embedding.
    - A [uint64] is a [Z] in [[0, 2^64)]; every addition and subtraction of
      the source is written with its wrap-around ([U64.add], [U64.sub]).
    - A [*protocol.DataMessage] is a location in a store of messages
      ([heap]); the slots of the buffer hold locations, so that the write
      [e.SeqNum = ...] of [Add] is a write to the shared message.
    - Every method is a function from the state of the world to a result and
      the state of the world after it.  A run-time panic of Go (division by
      zero, index out of range, nil dereference) is a result of its own.
    - The part of a method between [b.Lock()] and [b.Unlock()] is one
      function: under the mutex these parts are atomic, and the waits on the
      latches happen outside of them.  The mutex itself is not a field of
      the model; a panic inside [Add], which takes the lock without a
      [defer], ends the run of the client.
    - The callbacks of the options are opaque: the world records each call
      and nothing else happens.
    - Time is a clock in the world, in nanoseconds; it moves when a method
      waits on a latch that is not set, between the calls, and between the
      two readings of the clock in [Add], by an amount that [Add] takes as
      a parameter. *)

From Stdlib Require Import ZArith Lia Bool List.
From stdpp Require Import base option list gmap.

Local Open Scope Z_scope.

(** ** Machine integers *)

Module U64.
Definition modulus : Z := 2 ^ 64.
Definition MaxUint64 : Z := 2 ^ 64 - 1.
Definition wrap (z : Z) : Z := z mod modulus.
Definition add (a b : Z) : Z := wrap (a + b).
Definition sub (a b : Z) : Z := wrap (a - b).
Definition in_range (z : Z) : Prop := 0 <= z < modulus.
End U64.

(** [float64(c)] for a [uint64] [c]: the nearest number with 53 significant
    bits, ties to the even one.  Its value is an integer, which is what the
    function returns. *)
Definition float64_of_uint64 (c : Z) : Z :=
  let e := Z.log2 c - 52 in
  if e <=? 0 then c
  else
    let q := Z.shiftr c e in
    let r := c - Z.shiftl q e in
    let half := Z.shiftl 1 (e - 1) in
    let q' := if (half <? r) || ((r =? half) && Z.odd q) then q + 1 else q in
    Z.shiftl q' e.

(** ** Constants of ack_buffer.go *)

Definition defaultCapacity : Z := 5000.

(** [uint64(float64(c) * ackPercentOfCapacity)] with
    [ackPercentOfCapacity = 0.5]: halving a float64 is exact, and the
    conversion back to [uint64] drops the fraction. *)
Definition ackShare (c : Z) : Z := float64_of_uint64 c / 2.

(** [500 * time.Millisecond], in nanoseconds as [time.Duration] counts. *)
Definition pollTick : Z := 500 * 1000000.

(** [runtime.makeslice] panics when the bytes asked for exceed [maxAlloc]
    (2^48 on the 64-bit targets); a slot is a pointer of 8 bytes. *)
Definition maxAlloc : Z := 2 ^ 48.
Definition ptrSize : Z := 8.

(** ** Messages, callbacks, results *)

Abbreviation loc := nat (only parsing).

(** Modelled from the spec: [protocol.DataMessage], whose package is not
    among the sources.  The spec gives it an opaque payload, a sequence
    number and an ack-requested flag; [Add] writes the last two. *)
Record DataMessage := mkDataMessage {
  SeqNum : Z;
  AckRequested : bool;
  Payload : Z;
}.

Definition set_SeqNum (v : Z) (m : DataMessage) : DataMessage :=
  mkDataMessage v (AckRequested m) (Payload m).
Definition set_AckRequested (v : bool) (m : DataMessage) : DataMessage :=
  mkDataMessage (SeqNum m) v (Payload m).

(** A [func()] value of the options.  What a callback does is not the
    buffer's business; the world records that it was called. *)
Inductive callback := Callback (id : nat).

Inductive panic :=
| DivideByZero
| IndexOutOfRange
| NilDereference
| LenOutOfRange.

(** [Blocked]: the method is still waiting when the fuel of its loop ends. *)
Inductive result (A : Type) :=
| Done (a : A)
| Panicked (p : panic)
| Blocked.
Arguments Done {A} a.
Arguments Panicked {A} p.
Arguments Blocked {A}.

(** The [error] values of [Ack]. *)
Inductive error :=
| ErrUnexpected (seq : Z)
| ErrNotDelivered (seq next : Z).

(** ** The event latch *)

(** Modelled from the spec: the [Event] latch ([NewEvent], [Set], [Clear],
    [IsSet], [WaitFor]), whose source file is not among the sources.  The
    spec: a manual-reset boolean; construction yields a cleared latch;
    [WaitFor d] blocks up to [d] and returns true iff the latch is set at
    return.  With no other thread running during the wait, a set latch
    returns at once and a cleared one returns false after [d]. *)
Definition Event := bool.
Definition NewEvent : Event := false.
Definition Event_Set (ev : Event) : Event := true.
Definition Event_Clear (ev : Event) : Event := false.
Definition Event_IsSet (ev : Event) : bool := ev.
Definition Event_WaitFor (ev : Event) (d : Z) (now : Z) : bool * Z :=
  if Event_IsSet ev then (true, now) else (false, now + Z.max 0 d).

(** ** The buffer *)

Record AckBufferOptions := mkOptions {
  BufferCapacity : Z;
  OnBackPressure : option callback;
  OnAck : option callback;
}.

Record AckBuffer := mkAckBuffer {
  isRunning : bool;
  isAvailable : Event;
  buff : list (option loc);
  nextIndexFree : Z;
  firstSeqNum : Z;
  nextSeqNum : Z;
  ackEvery : Z;
  nextIndexToDeliver : Z;
  isReadyToDeliver : Event;
  onBackPressure : option callback;
  onAck : option callback;
}.

Definition set_isRunning (v : bool) (b : AckBuffer) : AckBuffer :=
  mkAckBuffer v (isAvailable b) (buff b) (nextIndexFree b) (firstSeqNum b)
    (nextSeqNum b) (ackEvery b) (nextIndexToDeliver b) (isReadyToDeliver b)
    (onBackPressure b) (onAck b).
Definition set_isAvailable (v : Event) (b : AckBuffer) : AckBuffer :=
  mkAckBuffer (isRunning b) v (buff b) (nextIndexFree b) (firstSeqNum b)
    (nextSeqNum b) (ackEvery b) (nextIndexToDeliver b) (isReadyToDeliver b)
    (onBackPressure b) (onAck b).
Definition set_buff (v : list (option loc)) (b : AckBuffer) : AckBuffer :=
  mkAckBuffer (isRunning b) (isAvailable b) v (nextIndexFree b) (firstSeqNum b)
    (nextSeqNum b) (ackEvery b) (nextIndexToDeliver b) (isReadyToDeliver b)
    (onBackPressure b) (onAck b).
Definition set_nextIndexFree (v : Z) (b : AckBuffer) : AckBuffer :=
  mkAckBuffer (isRunning b) (isAvailable b) (buff b) v (firstSeqNum b)
    (nextSeqNum b) (ackEvery b) (nextIndexToDeliver b) (isReadyToDeliver b)
    (onBackPressure b) (onAck b).
Definition set_firstSeqNum (v : Z) (b : AckBuffer) : AckBuffer :=
  mkAckBuffer (isRunning b) (isAvailable b) (buff b) (nextIndexFree b) v
    (nextSeqNum b) (ackEvery b) (nextIndexToDeliver b) (isReadyToDeliver b)
    (onBackPressure b) (onAck b).
Definition set_nextSeqNum (v : Z) (b : AckBuffer) : AckBuffer :=
  mkAckBuffer (isRunning b) (isAvailable b) (buff b) (nextIndexFree b)
    (firstSeqNum b) v (ackEvery b) (nextIndexToDeliver b) (isReadyToDeliver b)
    (onBackPressure b) (onAck b).
Definition set_nextIndexToDeliver (v : Z) (b : AckBuffer) : AckBuffer :=
  mkAckBuffer (isRunning b) (isAvailable b) (buff b) (nextIndexFree b)
    (firstSeqNum b) (nextSeqNum b) (ackEvery b) v (isReadyToDeliver b)
    (onBackPressure b) (onAck b).
Definition set_isReadyToDeliver (v : Event) (b : AckBuffer) : AckBuffer :=
  mkAckBuffer (isRunning b) (isAvailable b) (buff b) (nextIndexFree b)
    (firstSeqNum b) (nextSeqNum b) (ackEvery b) (nextIndexToDeliver b) v
    (onBackPressure b) (onAck b).

(** [len(b.buff)] as a [uint64]. *)
Definition cap (b : AckBuffer) : Z := Z.of_nat (length (buff b)).

(** ** The world: the messages, the buffer, the clock, the callbacks called *)

Record World := mkWorld {
  heap : gmap loc DataMessage;
  ab : AckBuffer;
  clock : Z;
  calls : list callback;
}.

Definition set_heap (v : gmap loc DataMessage) (w : World) : World :=
  mkWorld v (ab w) (clock w) (calls w).
Definition set_ab (v : AckBuffer) (w : World) : World :=
  mkWorld (heap w) v (clock w) (calls w).
Definition set_clock (v : Z) (w : World) : World :=
  mkWorld (heap w) (ab w) v (calls w).
Definition set_calls (v : list callback) (w : World) : World :=
  mkWorld (heap w) (ab w) (clock w) v.

(** [if f != nil { f() }] *)
Definition call_if_set (f : option callback) (w : World) : World :=
  match f with
  | Some c => set_calls (c :: calls w) w
  | None => w
  end.

(** ** NewAckBuffer *)

Definition NewAckBuffer (o : AckBufferOptions) : result AckBuffer :=
  let c := if BufferCapacity o =? 0 then defaultCapacity else BufferCapacity o in
  if maxAlloc <? c * ptrSize then Panicked LenOutOfRange
  else
    Done {|
      buff := replicate (Z.to_nat c) None;
      ackEvery := ackShare c;
      isRunning := true;
      isAvailable := Event_Set NewEvent;
      firstSeqNum := 1;
      nextSeqNum := 1;
      nextIndexFree := 0;
      nextIndexToDeliver := 0;
      isReadyToDeliver := NewEvent;
      onBackPressure := OnBackPressure o;
      onAck := OnAck o;
    |}.

(** ** Close *)

Definition Close (w : World) : World :=
  set_ab (set_isRunning false (ab w)) w.

(** ** Add *)

(** How one turn of the loop of [Add] ends. *)
Inductive turn := Added | Continue | Break.

(** The turn up to [b.Lock()]: [true] when the lock is reached, [false] on
    a [break].  [deadline] is [None] for the zero [time.Time]; [clock w] is
    what [time.Now()] returns in the turn. *)
Definition Add_wait (deadline : option Z) (w : World) : bool * World :=
  let b := ab w in
  match deadline with
  | Some dl =>
      let now := clock w in
      if dl <? now then (false, w)
      else
        let w1 :=
          if negb (Event_IsSet (isAvailable b))
          then call_if_set (onBackPressure b) w else w in
        let '(ok, t) := Event_WaitFor (isAvailable b) (dl - now) (clock w1) in
        (ok, set_clock t w1)
  | None =>
      let '(_, t) := Event_WaitFor (isAvailable b) pollTick (clock w) in
      (true, set_clock t w)
  end.

(** The turn from [b.Lock()] to [b.Unlock()]. *)
Definition Add_locked (e : loc) (deadline : option Z) (w : World)
  : result turn * World :=
  let b := ab w in
  if negb (Event_IsSet (isAvailable b)) then
    if (if deadline is None then true else false) && isRunning b
    then (Done Continue, w) else (Done Break, w)
  else
    match heap w !! e with
    | None => (Panicked NilDereference, w)
    | Some m =>
        let seq := nextSeqNum b in
        let w1 := set_heap (<[e := set_SeqNum seq m]> (heap w)) w in
        let b1 := set_nextSeqNum (U64.add seq 1) b in
        let w2 := set_ab b1 w1 in
        if ackEvery b1 =? 0 then (Panicked DivideByZero, w2)
        else
          let w3 :=
            if seq mod ackEvery b1 =? 0
            then set_heap (<[e := set_AckRequested true (set_SeqNum seq m)]> (heap w2)) w2
            else w2 in
          if cap b1 <=? nextIndexFree b1 then (Panicked IndexOutOfRange, w3)
          else
            let b2 := set_buff (<[Z.to_nat (nextIndexFree b1) := Some e]> (buff b1)) b1 in
            let b3 := set_nextIndexFree (U64.add (nextIndexFree b2) 1) b2 in
            let b4 :=
              if cap b3 <=? nextIndexFree b3
              then set_isAvailable (Event_Clear (isAvailable b3)) b3 else b3 in
            let b5 := set_isReadyToDeliver (Event_Set (isReadyToDeliver b4)) b4 in
            (Done Added, set_ab b5 w3)
    end.

(** [for !hasBeenAdded { ... }]; the fuel bounds the number of turns. *)
Fixpoint Add_loop (fuel : nat) (e : loc) (deadline : option Z) (w : World)
  : result bool * World :=
  match fuel with
  | O => (Blocked, w)
  | S fuel' =>
      let '(locking, w1) := Add_wait deadline w in
      if negb locking then (Done false, w1)
      else
        match Add_locked e deadline w1 with
        | (Done Added, w2) => (Done true, w2)
        | (Done Break, w2) => (Done false, w2)
        | (Done Continue, w2) => Add_loop fuel' e deadline w2
        | (Panicked p, w2) => (Panicked p, w2)
        | (Blocked, w2) => (Blocked, w2)
        end
  end.

(** [lag] is the time that passes between the two readings of the clock:
    [time.Now()] for the deadline, before the loop, and [time.Now()] in the
    first turn of the loop.  With a deadline the loop has one turn only, so
    that no other reading follows; without one the clock is not read. *)
Definition Add (e : loc) (timeout : Z) (lag : Z) (fuel : nat) (w : World)
  : result bool * World :=
  if timeout =? 0 then Add_loop fuel e None w
  else
    let deadline := clock w + timeout in
    Add_loop fuel e (Some deadline) (set_clock (clock w + lag) w).

(** ** Ack *)

(** [for ; i < len; i++ { buff[i-k] = buff[i] }], with [n] turns left. *)
Fixpoint shift_loop (n i k : nat) (bf : list (option loc)) : list (option loc) :=
  match n with
  | O => bf
  | S n' =>
      match bf !! i with
      | Some x => shift_loop n' (S i) k (<[(i - k)%nat := x]> bf)
      | None => bf
      end
  end.

(** [for ; i < len; i++ { buff[i] = nil }], with [n] turns left. *)
Fixpoint clear_loop (n i : nat) (bf : list (option loc)) : list (option loc) :=
  match n with
  | O => bf
  | S n' => clear_loop n' (S i) (<[i := None]> bf)
  end.

(** [seq < b.firstSeqNum &&
     uint64(len(b.buff))-(math.MaxUint64-b.firstSeqNum) <= seq] *)
Definition before_first (seq : Z) (b : AckBuffer) : bool :=
  (seq <? firstSeqNum b)
  && (U64.sub (cap b) (U64.sub U64.MaxUint64 (firstSeqNum b)) <=? seq).

(** [seq >= b.nextSeqNum && b.nextSeqNum >= math.MaxUint64-seq] *)
Definition after_next (seq : Z) (b : AckBuffer) : bool :=
  (nextSeqNum b <=? seq) && (U64.sub U64.MaxUint64 seq <=? nextSeqNum b).

(** The body of [Ack] under the lock.  [None] is the [nil] error. *)
Definition Ack_locked (seq : Z) (w : World) : result (option error) * World :=
  let b := ab w in
  if before_first seq b then (Done (Some (ErrUnexpected seq)), w)
  else if after_next seq b then (Done (Some (ErrUnexpected seq)), w)
  else
    let indexAcked := U64.sub seq (firstSeqNum b) in
    if nextIndexToDeliver b <=? indexAcked then
      match buff b !! Z.to_nat (nextIndexToDeliver b) with
      | None => (Panicked IndexOutOfRange, w)
      | Some slot =>
          let nextSeq :=
            match slot with
            | Some p => if heap w !! p is Some m then SeqNum m else 0
            | None => 0
            end in
          (Done (Some (ErrNotDelivered seq nextSeq)), w)
      end
    else
      let b1 := set_firstSeqNum (U64.add seq 1) b in
      let k := Z.to_nat (U64.add indexAcked 1) in
      let b2 := set_buff (shift_loop (length (buff b1) - k) k k (buff b1)) b1 in
      let b3 :=
        set_nextIndexFree (U64.sub (U64.sub (nextIndexFree b2) indexAcked) 1) b2 in
      let f := Z.to_nat (nextIndexFree b3) in
      let b4 := set_buff (clear_loop (length (buff b3) - f) f (buff b3)) b3 in
      let b5 := set_isAvailable (Event_Set (isAvailable b4)) b4 in
      let b6 :=
        set_nextIndexToDeliver
          (U64.sub (nextIndexToDeliver b5) (U64.add indexAcked 1)) b5 in
      let b7 :=
        if nextIndexFree b6 <=? nextIndexToDeliver b6
        then set_isReadyToDeliver (Event_Clear (isReadyToDeliver b6)) b6 else b6 in
      (Done None, set_ab b7 w).

Definition Ack (seq : Z) (w : World) : result (option error) * World :=
  Ack_locked seq (call_if_set (onAck (ab w)) w).

(** ** GetUnAcked *)

Definition GetUnAcked (w : World) : result (list (option loc)) :=
  let b := ab w in
  if cap b <? nextIndexFree b then Panicked IndexOutOfRange
  else Done (take (Z.to_nat (nextIndexFree b)) (buff b)).

(** ** GetNextToDeliver *)

(** From [b.Lock()] on. *)
Definition GetNextToDeliver_locked (w : World) : result (option loc) * World :=
  let b := ab w in
  if negb (Event_IsSet (isReadyToDeliver b)) then (Done None, w)
  else
    match buff b !! Z.to_nat (nextIndexToDeliver b) with
    | None => (Panicked IndexOutOfRange, w)
    | Some n =>
        let b1 := set_nextIndexToDeliver (U64.add (nextIndexToDeliver b) 1) b in
        let b2 :=
          if nextIndexFree b1 <=? nextIndexToDeliver b1
          then set_isReadyToDeliver (Event_Clear (isReadyToDeliver b1)) b1 else b1 in
        (Done n, set_ab b2 w)
    end.

Definition GetNextToDeliver (timeout : Z) (w : World)
  : result (option loc) * World :=
  let '(ok, t) := Event_WaitFor (isReadyToDeliver (ab w)) timeout (clock w) in
  let w1 := set_clock t w in
  if negb ok then (Done None, w1) else GetNextToDeliver_locked w1.

(** ** ResetDelivery *)

Definition ResetDelivery (w : World) : World :=
  let b1 := set_nextIndexToDeliver 0 (ab w) in
  let b2 :=
    if nextIndexFree b1 <=? nextIndexToDeliver b1
    then set_isReadyToDeliver (Event_Clear (isReadyToDeliver b1)) b1
    else set_isReadyToDeliver (Event_Set (isReadyToDeliver b1)) b1 in
  set_ab b2 w.

(** * The vocabulary of the properties *)

(** ** The states the methods leave *)

(** The capacity of a buffer that was constructed. *)
Definition capacity_of (o : AckBufferOptions) : Z :=
  if BufferCapacity o =? 0 then defaultCapacity else BufferCapacity o.

(** The message as [Add] stamps it: the sequence number is written, the
    flag is raised on the stride and otherwise left as it was. *)
Definition stamp (seq every : Z) (m : DataMessage) : DataMessage :=
  mkDataMessage seq (if seq mod every =? 0 then true else AckRequested m)
    (Payload m).

(** The world after an admission of the message [m] at [e]. *)
Definition admitted (e : loc) (m : DataMessage) (w : World) : World :=
  let b := ab w in
  mkWorld
    (<[e := stamp (nextSeqNum b) (ackEvery b) m]> (heap w))
    (mkAckBuffer (isRunning b)
       (bool_decide (nextIndexFree b + 1 < cap b))
       (<[Z.to_nat (nextIndexFree b) := Some e]> (buff b))
       (nextIndexFree b + 1) (firstSeqNum b) (U64.add (nextSeqNum b) 1)
       (ackEvery b) (nextIndexToDeliver b) true (onBackPressure b) (onAck b))
    (clock w) (calls w).

(** The slots after the two loops of [Ack]: [k] slots leave at the front,
    [f] stay. *)
Definition compact (k f : nat) (bf : list (option loc)) : list (option loc) :=
  clear_loop (length bf - f) f (shift_loop (length bf - k) k k bf).

(** The world after a valid [Ack seq]. *)
Definition acked (seq : Z) (w : World) : World :=
  let b := ab w in
  let idx := U64.sub seq (firstSeqNum b) in
  set_ab
    (mkAckBuffer (isRunning b) true
       (compact (Z.to_nat (idx + 1)) (Z.to_nat (nextIndexFree b - idx - 1)) (buff b))
       (nextIndexFree b - idx - 1) (U64.add seq 1) (nextSeqNum b) (ackEvery b)
       (nextIndexToDeliver b - idx - 1)
       (bool_decide (nextIndexToDeliver b < nextIndexFree b))
       (onBackPressure b) (onAck b))
    w.

(** The deadline of [Add] has not passed when the loop first checks it:
    no deadline at all, or a second reading of the clock that is not after
    the deadline ([now.After(deadline)] is false). *)
Definition in_time (timeout lag : Z) : Prop :=
  timeout = 0 ∨ 0 <= lag <= timeout.

(** The world at the first turn of the loop of [Add]: the clock has been
    read a second time when there is a deadline. *)
Definition at_loop (timeout lag : Z) (w : World) : World :=
  if timeout =? 0 then w else set_clock (clock w + lag) w.

(** ** The invariants of the buffer *)

(** Slot [i] holds a message whose sequence number is [s]. *)
Definition slot_holds (w : World) (i : nat) (s : Z) : Prop :=
  ∃ p m, buff (ab w) !! i = Some (Some p) ∧ heap w !! p = Some m ∧ SeqNum m = s.

(** The invariants of the data model, in the arithmetic of [uint64]. *)
Record Inv (w : World) : Prop := mkInv {
  inv_cap : 0 < cap (ab w) ∧ cap (ab w) * ptrSize <= maxAlloc;
  inv_first : U64.in_range (firstSeqNum (ab w));
  inv_next_seq :
    nextSeqNum (ab w) = U64.add (firstSeqNum (ab w)) (nextIndexFree (ab w));
  inv_cursor : 0 <= nextIndexToDeliver (ab w) <= nextIndexFree (ab w);
  inv_free : nextIndexFree (ab w) <= cap (ab w);
  inv_slots : ∀ i : nat, Z.of_nat i < nextIndexFree (ab w) →
    slot_holds w i (U64.add (firstSeqNum (ab w)) (Z.of_nat i));
  inv_empty : ∀ i : nat, nextIndexFree (ab w) <= Z.of_nat i < cap (ab w) →
    buff (ab w) !! i = Some None;
  inv_available :
    Event_IsSet (isAvailable (ab w)) = true ↔ nextIndexFree (ab w) < cap (ab w);
  inv_ready :
    Event_IsSet (isReadyToDeliver (ab w)) = true ↔
    nextIndexToDeliver (ab w) < nextIndexFree (ab w);
}.

(** The sequence counter has not wrapped after [n] admissions. *)
Definition NoWrap (n : nat) (w : World) : Prop :=
  1 <= firstSeqNum (ab w)
  ∧ firstSeqNum (ab w) + nextIndexFree (ab w) = 1 + Z.of_nat n
  ∧ 1 + Z.of_nat n < U64.modulus.

(** The invariants of the data model for a buffer of capacity [C]; [plus]
    is the addition the sequence numbers are read with. *)
Definition spec_invariants (plus : Z → Z → Z) (C : Z) (w : World) : Prop :=
  let b := ab w in
  cap b = C
  ∧ nextSeqNum b = plus (firstSeqNum b) (nextIndexFree b)
  ∧ (0 <= nextIndexToDeliver b <= nextIndexFree b ∧ nextIndexFree b <= C)
  ∧ (∀ i : nat, Z.of_nat i < nextIndexFree b →
       slot_holds w i (plus (firstSeqNum b) (Z.of_nat i)))
  ∧ (∀ i : nat, nextIndexFree b <= Z.of_nat i < C → buff b !! i = Some None)
  ∧ (Event_IsSet (isAvailable b) = true ↔ nextIndexFree b < C)
  ∧ (Event_IsSet (isReadyToDeliver b) = true ↔
     nextIndexToDeliver b < nextIndexFree b).

(** The capacity, the stride and the callbacks of a buffer. *)
Definition configured (o : AckBufferOptions) (b : AckBuffer) : Prop :=
  cap b = capacity_of o
  ∧ ackEvery b = capacity_of o / 2
  ∧ onBackPressure b = OnBackPressure o
  ∧ onAck b = OnAck o.

(** Two worlds with the same messages and the same buffer. *)
Definition same_store (w w' : World) : Prop :=
  heap w' = heap w ∧ ab w' = ab w.

(** ** The states a client can reach *)

(** [reach o n w]: [w] is reached from [NewAckBuffer o] by calls of the
    methods, none of which panicked, [n] of them admissions.  Between the
    calls time passes and the producer creates messages.  A message handed
    to [Add] is not one the buffer holds. *)
Inductive reach (o : AckBufferOptions) : nat → World → Prop :=
| reach_new b h t :
    U64.in_range (BufferCapacity o) → NewAckBuffer o = Done b →
    reach o 0 (mkWorld h b t [])
| reach_tick n w d :
    reach o n w → 0 <= d → reach o n (set_clock (clock w + d) w)
| reach_alloc n w l m :
    reach o n w → heap w !! l = None →
    reach o n (set_heap (<[l := m]> (heap w)) w)
| reach_Add n w e timeout lag fuel w' :
    reach o n w → Some e ∉ buff (ab w) →
    Add e timeout lag fuel w = (Done true, w') → reach o (S n) w'
| reach_Add_not n w e timeout lag fuel r w' :
    reach o n w → Add e timeout lag fuel w = (r, w') →
    r = Done false ∨ r = Blocked → reach o n w'
| reach_Ack n w seq r w' :
    reach o n w → U64.in_range seq → Ack seq w = (Done r, w') → reach o n w'
| reach_Next n w timeout r w' :
    reach o n w → GetNextToDeliver timeout w = (Done r, w') → reach o n w'
| reach_Reset n w : reach o n w → reach o n (ResetDelivery w)
| reach_Close n w : reach o n w → reach o n (Close w).

(** A call of a method of the buffer, or a pause of the client. *)
Inductive call :=
| CallAdd (e : loc) (timeout lag : Z)
| CallAck (seq : Z)
| CallNext (timeout : Z)
| CallReset
| CallClose
| Sleep (d : Z).

(** Replays the calls from [w], counting the admissions; [None] when a call
    panics or breaks what [reach] asks of it. *)
Fixpoint replay (fuel : nat) (cs : list call) (n : nat) (w : World)
  : option (nat * World) :=
  match cs with
  | [] => Some (n, w)
  | CallAdd e timeout lag :: cs' =>
      match Add e timeout lag fuel w with
      | (Done true, w') =>
          if bool_decide (Some e ∉ buff (ab w)) then replay fuel cs' (S n) w' else None
      | (Done false, w') | (Blocked, w') => replay fuel cs' n w'
      | (Panicked _, _) => None
      end
  | CallAck seq :: cs' =>
      if (0 <=? seq) && (seq <? U64.modulus) then
        match Ack seq w with
        | (Done _, w') => replay fuel cs' n w'
        | _ => None
        end
      else None
  | CallNext timeout :: cs' =>
      match GetNextToDeliver timeout w with
      | (Done _, w') => replay fuel cs' n w'
      | _ => None
      end
  | CallReset :: cs' => replay fuel cs' n (ResetDelivery w)
  | CallClose :: cs' => replay fuel cs' n (Close w)
  | Sleep d :: cs' =>
      if 0 <=? d then replay fuel cs' n (set_clock (clock w + d) w) else None
  end.

(** ** Worked states *)

Definition hookBP : callback := Callback 0.
Definition hookAck : callback := Callback 1.

(** Six messages as a producer makes them: no sequence number, no flag. *)
Definition blank (payload : Z) : DataMessage := mkDataMessage 0 false payload.
Definition six : gmap loc DataMessage :=
  list_to_map [(1%nat, blank 10); (2%nat, blank 20); (3%nat, blank 30);
               (4%nat, blank 40); (5%nat, blank 50); (6%nat, blank 60)].

Definition opts (c : Z) : AckBufferOptions := mkOptions c (Some hookBP) (Some hookAck).

(** The buffer [NewAckBuffer (opts c)] returns for a small [c]. *)
Definition fresh (c : Z) : World :=
  mkWorld six
    (mkAckBuffer true true (replicate (Z.to_nat c) None) 0 1 1 (c / 2) 0 false
       (Some hookBP) (Some hookAck))
    0 [].

(** The world after a trace, or the world where it started if the trace
    cannot be replayed. *)
Definition after (cs : list call) (w : World) : World :=
  match replay 1 cs 0 w with
  | Some (_, w') => w'
  | None => w
  end.

(** Capacity 4: four messages admitted, then four delivered. *)
Definition admit4 : list call :=
  [CallAdd 1 1000 100; CallAdd 2 1000 100; CallAdd 3 1000 100; CallAdd 4 1000 100].
Definition deliver4 : list call :=
  [CallNext 1000; CallNext 1000; CallNext 1000; CallNext 1000].
Definition full4 : World := after admit4 (fresh 4).
Definition delivered4 : World := after (admit4 ++ deliver4) (fresh 4).

(** Capacity 4: four admitted and delivered, the ack of 2, a fifth admitted. *)
Definition five4 : World :=
  after (admit4 ++ deliver4 ++ [CallAck 2; CallAdd 5 1000 100]) (fresh 4).

(** Capacity 4: one message admitted and delivered, which carries no flag. *)
Definition one4 : World := after [CallAdd 1 1000 100; CallNext 1000] (fresh 4).

(** The sequence numbers of the messages a snapshot lists. *)
Definition seqs_of (w : World) (l : list (option loc)) : list (option Z) :=
  map (λ slot, p ← slot; m ← heap w !! p; Some (SeqNum m)) l.

(** ** Four claims as they are stated *)

(** The claim C1 as it is stated, for one call: a sequence number outside
    [[first_seq, first_seq + deliver_cursor)] gets an error, and the store is
    as it was. *)
Definition Ack_refuses_outside (seq : Z) (w : World) : Prop :=
  ¬ (firstSeqNum (ab w) <= seq
     < firstSeqNum (ab w) + nextIndexToDeliver (ab w)) →
  ∃ err w', Ack seq w = (Done (Some err), w') ∧ heap w' = heap w ∧ ab w' = ab w.

(** The claim C2 as it is stated, for one call. *)
Definition Add_refused_after_Close (e : loc) (timeout lag : Z) (fuel : nat) (w : World)
  : Prop :=
  isRunning (ab w) = false →
  fst (Add e timeout lag fuel w) = Done false
  ∧ buff (ab (snd (Add e timeout lag fuel w))) = buff (ab w).

(** The claim C3 as it is stated: after Close the available latch is set. *)
Definition Close_raises_available (w : World) : Prop :=
  Event_IsSet (isAvailable (ab (Close w))) = true.

(** The claim C8 as it is stated, for one call that finds the buffer full:
    the callback is called, once. *)
Definition backpressure_reported (e : loc) (timeout lag : Z) (fuel : nat) (w : World)
  : Prop :=
  Event_IsSet (isAvailable (ab w)) = false →
  ∀ c, onBackPressure (ab w) = Some c →
    calls (snd (Add e timeout lag fuel w)) = c :: calls w.

(** ** The sender and the stride, for the further properties *)

(** [k] calls of [GetNextToDeliver] in a row, as a sender makes them; the
    messages returned, in the order of the calls. *)
Fixpoint deliver_n (k : nat) (timeout : Z) (w : World)
  : result (list (option loc)) * World :=
  match k with
  | O => (Done [], w)
  | S k' =>
      match GetNextToDeliver timeout w with
      | (Done x, w1) =>
          match deliver_n k' timeout w1 with
          | (Done l, w2) => (Done (x :: l), w2)
          | (Panicked p, w2) => (Panicked p, w2)
          | (Blocked, w2) => (Blocked, w2)
          end
      | (Panicked p, w1) => (Panicked p, w1)
      | (Blocked, w1) => (Blocked, w1)
      end
  end.

(** Every message the buffer holds whose sequence number is on the stride
    carries the flag. *)
Definition stride_flagged (w : World) : Prop :=
  ∀ (i : nat) p m,
    Z.of_nat i < nextIndexFree (ab w) →
    buff (ab w) !! i = Some (Some p) → heap w !! p = Some m →
    SeqNum m mod ackEvery (ab w) = 0 → AckRequested m = true.

(** One message through the buffer in lock step: it is admitted, delivered
    at once, and acknowledged by the peer iff it carries the flag, which is
    what the server of the test does with each message it reads
    ([if msg.AckRequested { ... WriteJSON(ACK, msg.SeqNum) }]). *)
Definition exchange (e : loc) (timeout lag : Z) (w : World) : result bool * World :=
  match Add e timeout lag 1 w with
  | (Done true, w1) =>
      match GetNextToDeliver timeout w1 with
      | (Done (Some p), w2) =>
          match heap w2 !! p with
          | Some m =>
              if AckRequested m then
                match Ack (SeqNum m) w2 with
                | (Done _, w3) => (Done true, w3)
                | (Panicked q, w3) => (Panicked q, w3)
                | (Blocked, w3) => (Blocked, w3)
                end
              else (Done true, w2)
          | None => (Panicked NilDereference, w2)
          end
      | (Done None, w2) => (Done true, w2)
      | (Panicked q, w2) => (Panicked q, w2)
      | (Blocked, w2) => (Blocked, w2)
      end
  | (r, w1) => (r, w1)
  end.

(** Thirty messages without flag, and their exchanges in a row, as the test
    ships them (capacity 10, a timeout of one second). *)
Definition thirty : gmap loc DataMessage :=
  list_to_map (map (λ i, (i, blank (Z.of_nat i))) (seq 1 30)).

Fixpoint exchanges (es : list loc) (w : World) : list (result bool) * World :=
  match es with
  | [] => ([], w)
  | e :: es' =>
      let '(r, w1) := exchange e 1000000000 100 w in
      let '(rs, w2) := exchanges es' w1 in (r :: rs, w2)
  end.

(** * Properties *)

(** ** Arithmetic of the wrap-around *)

Lemma wrap_small z : 0 <= z < U64.modulus → U64.wrap z = z.
Proof. intros H. unfold U64.wrap. apply Z.mod_small. exact H. Qed.

Lemma wrap_range z : 0 <= U64.wrap z < U64.modulus.
Proof. unfold U64.wrap. apply Z.mod_pos_bound. reflexivity. Qed.

Lemma wrap_wrap_add a b : U64.wrap (U64.wrap a + b) = U64.wrap (a + b).
Proof. unfold U64.wrap. apply Zplus_mod_idemp_l. Qed.

Lemma wrap_add_wrap a b : U64.wrap (a + U64.wrap b) = U64.wrap (a + b).
Proof. unfold U64.wrap. apply Zplus_mod_idemp_r. Qed.

Lemma modulus_eq : U64.modulus = 18446744073709551616.
Proof. reflexivity. Qed.

Lemma maxAlloc_eq : maxAlloc = 281474976710656.
Proof. reflexivity. Qed.

(** Unfold the machine arithmetic and remove the wraps that do nothing. *)
Ltac u64 :=
  unfold U64.add, U64.sub, U64.MaxUint64, U64.in_range in *;
  repeat match goal with
    | |- context [U64.wrap ?z] =>
        rewrite (wrap_small z) by (pose proof modulus_eq; lia)
    | H : context [U64.wrap ?z] |- _ =>
        rewrite (wrap_small z) in H by (pose proof modulus_eq; lia)
    end.

(** ** The two loops of [Ack] *)

Lemma shift_loop_length n : ∀ i k bf, length (shift_loop n i k bf) = length bf.
Proof.
  induction n as [|n IH]; intros i k bf; simpl; [reflexivity|].
  destruct (bf !! i); [|reflexivity].
  rewrite IH. apply length_insert.
Qed.

(** Slot [j] of the result holds what slot [j + k] held, for the slots the
    loop writes; the others are as they were. *)
Lemma shift_loop_lookup n : ∀ i k bf j,
  (k ≤ i)%nat → (i + n = length bf)%nat →
  shift_loop n i k bf !! j =
    if decide (i - k ≤ j < length bf - k)%nat then bf !! (j + k)%nat else bf !! j.
Proof.
  induction n as [|n IH]; intros i k bf j Hk Hlen; simpl.
  - case_decide; [lia|reflexivity].
  - destruct (bf !! i) as [x|] eqn:Hi.
    2: { apply lookup_ge_None in Hi. lia. }
    rewrite IH by (rewrite ?length_insert; lia).
    rewrite length_insert.
    destruct (decide (j = i - k)%nat) as [->|Hne].
    + rewrite decide_False by lia. rewrite decide_True by lia.
      rewrite list_lookup_insert_eq by lia.
      replace (i - k + k)%nat with i by lia. symmetry. exact Hi.
    + case_decide; case_decide; try lia;
        rewrite list_lookup_insert_ne by lia; reflexivity.
Qed.

Lemma clear_loop_length n : ∀ i bf, length (clear_loop n i bf) = length bf.
Proof.
  induction n as [|n IH]; intros i bf; simpl; [reflexivity|].
  rewrite IH. apply length_insert.
Qed.

Lemma clear_loop_lookup n : ∀ i bf j,
  (i + n = length bf)%nat →
  clear_loop n i bf !! j =
    if decide (i ≤ j < length bf)%nat then Some None else bf !! j.
Proof.
  induction n as [|n IH]; intros i bf j Hlen; simpl.
  - case_decide; [lia|reflexivity].
  - rewrite IH by (rewrite length_insert; lia).
    rewrite length_insert.
    destruct (decide (j = i)) as [->|Hne].
    + rewrite decide_False by lia. rewrite decide_True by lia.
      apply list_lookup_insert_eq. lia.
    + case_decide; case_decide; try lia; try reflexivity.
      apply list_lookup_insert_ne. lia.
Qed.

(** ** The invariants are kept by every method *)

Lemma same_store_refl w : same_store w w.
Proof. split; reflexivity. Qed.

Lemma same_store_trans w1 w2 w3 :
  same_store w1 w2 → same_store w2 w3 → same_store w1 w3.
Proof. intros [H1 H2] [H3 H4]. split; congruence. Qed.

Lemma Inv_same_store w w' : same_store w w' → Inv w → Inv w'.
Proof.
  intros [Hh Hb] [H1 H2 H3 H4 H5 H6 H7 H8 H9].
  split; rewrite ?Hb; try assumption.
  intros i Hi. destruct (H6 i Hi) as (p & m & Hp & Hm & Hs).
  exists p, m. rewrite Hb, Hh. auto.
Qed.

Lemma NoWrap_same_store n w w' : same_store w w' → NoWrap n w → NoWrap n w'.
Proof. intros [_ Hb]. unfold NoWrap. rewrite Hb. auto. Qed.

(** Comparisons of the code as propositions. *)
Ltac bools :=
  repeat match goal with
    | H : (_ && _) = true |- _ => apply andb_true_iff in H; destruct H
    | H : (_ && _) = false |- _ => apply andb_false_iff in H
    | H : (_ || _) = true |- _ => apply orb_true_iff in H
    | H : (_ || _) = false |- _ => apply orb_false_iff in H; destruct H
    | H : negb _ = true |- _ => apply negb_true_iff in H
    | H : negb _ = false |- _ => apply negb_false_iff in H
    | H : (_ <? _) = true |- _ => apply Z.ltb_lt in H
    | H : (_ <? _) = false |- _ => apply Z.ltb_ge in H
    | H : (_ <=? _) = true |- _ => apply Z.leb_le in H
    | H : (_ <=? _) = false |- _ => apply Z.leb_gt in H
    | H : (_ =? _) = true |- _ => apply Z.eqb_eq in H
    | H : (_ =? _) = false |- _ => apply Z.eqb_neq in H
    end.

(** *** Construction *)

Lemma float64_exact c : 0 <= c < 2 ^ 53 → float64_of_uint64 c = c.
Proof.
  intros Hc. unfold float64_of_uint64.
  destruct (Z.eq_dec c 0) as [->|Hne]; [reflexivity|].
  assert (Z.log2 c < 53) by (apply Z.log2_lt_pow2; lia).
  destruct (Z.log2 c - 52 <=? 0) eqn:E; [reflexivity|].
  apply Z.leb_gt in E. lia.
Qed.

Lemma ackShare_half c : 0 <= c < 2 ^ 53 → ackShare c = c / 2.
Proof. intros Hc. unfold ackShare. rewrite float64_exact by exact Hc. reflexivity. Qed.

(** Above 2^53 the conversion rounds: to the even neighbour on a tie. *)
Example float64_rounds :
  float64_of_uint64 (2 ^ 53 + 1) = 2 ^ 53
  ∧ float64_of_uint64 (2 ^ 53 + 3) = 2 ^ 53 + 4
  ∧ float64_of_uint64 (2 ^ 64 - 1) = 2 ^ 64.
Proof. vm_compute. repeat split; reflexivity. Qed.

Example ackShare_small :
  ackShare 1 = 0 ∧ ackShare 2 = 1 ∧ ackShare 3 = 1 ∧ ackShare 10 = 5
  ∧ ackShare defaultCapacity = 2500.
Proof. vm_compute. repeat split; reflexivity. Qed.

Lemma NewAckBuffer_Done o b :
  U64.in_range (BufferCapacity o) → NewAckBuffer o = Done b →
  b = mkAckBuffer true true (replicate (Z.to_nat (capacity_of o)) None) 0 1 1
        (capacity_of o / 2) 0 false (OnBackPressure o) (OnAck o)
  ∧ 0 < capacity_of o ∧ capacity_of o * ptrSize <= maxAlloc.
Proof.
  unfold NewAckBuffer, capacity_of, U64.in_range. intros Hr H.
  set (c := if BufferCapacity o =? 0 then defaultCapacity else BufferCapacity o) in *.
  assert (0 < c).
  { subst c. destruct (BufferCapacity o =? 0) eqn:E; bools; [reflexivity|lia]. }
  destruct (maxAlloc <? c * ptrSize) eqn:E; [discriminate|]. bools.
  injection H as <-. rewrite ackShare_half.
  - auto.
  - rewrite maxAlloc_eq in E. unfold ptrSize in E. lia.
Qed.

Lemma Inv_new o b h t :
  U64.in_range (BufferCapacity o) → NewAckBuffer o = Done b →
  Inv (mkWorld h b t []).
Proof.
  intros Hr H. destruct (NewAckBuffer_Done o b Hr H) as (-> & Hc & Hm).
  assert (Hcap : Z.of_nat (length (replicate (Z.to_nat (capacity_of o)) (@None loc)))
                 = capacity_of o) by (rewrite length_replicate; lia).
  split; unfold cap; simpl; rewrite ?Hcap; try lia.
  - unfold U64.in_range. rewrite modulus_eq. lia.
  - reflexivity.
  - intros i Hi. apply lookup_replicate_2. lia.
  - unfold Event_IsSet. split; [lia|reflexivity].
  - unfold Event_IsSet. split; [discriminate|lia].
Qed.

(** *** The calls that move no message *)

Lemma Inv_Close w : Inv w → Inv (Close w).
Proof.
  intros [H1 H2 H3 H4 H5 H6 H7 H8 H9]. split; try assumption.
Qed.

Lemma Inv_tick w t : Inv w → Inv (set_clock t w).
Proof. apply Inv_same_store. split; reflexivity. Qed.

Lemma Inv_alloc w l m :
  heap w !! l = None → Inv w → Inv (set_heap (<[l := m]> (heap w)) w).
Proof.
  intros Hl [H1 H2 H3 H4 H5 H6 H7 H8 H9]. split; try assumption.
  intros i Hi. destruct (H6 i Hi) as (p & m' & Hp & Hm & Hs).
  exists p, m'. simpl. split; [exact Hp|]. split; [|exact Hs].
  rewrite lookup_insert_ne; [exact Hm|]. intros ->. congruence.
Qed.

Lemma Inv_ResetDelivery w : Inv w → Inv (ResetDelivery w).
Proof.
  intros [H1 H2 H3 H4 H5 H6 H7 H8 H9]. unfold ResetDelivery. simpl.
  destruct (nextIndexFree (ab w) <=? 0) eqn:E; bools;
    split; simpl; try assumption; try lia;
    unfold Event_IsSet, Event_Clear, Event_Set; split; try discriminate; try lia;
    reflexivity.
Qed.

Lemma GetNextToDeliver_locked_Done w r w' :
  Inv w → GetNextToDeliver_locked w = (Done r, w') →
  (r = None ∧ w' = w ∧ Event_IsSet (isReadyToDeliver (ab w)) = false)
  ∨ (Event_IsSet (isReadyToDeliver (ab w)) = true
     ∧ buff (ab w) !! Z.to_nat (nextIndexToDeliver (ab w)) = Some r
     ∧ w' = set_ab
         (set_isReadyToDeliver
            (bool_decide (nextIndexToDeliver (ab w) + 1 < nextIndexFree (ab w)))
            (set_nextIndexToDeliver (nextIndexToDeliver (ab w) + 1) (ab w))) w).
Proof.
  intros HI. unfold GetNextToDeliver_locked.
  destruct (Event_IsSet (isReadyToDeliver (ab w))) eqn:Er; simpl.
  2: { intros [= <- <-]. left. auto. }
  destruct (buff (ab w) !! Z.to_nat (nextIndexToDeliver (ab w))) as [n|] eqn:En;
    [|discriminate].
  intros [= <- <-]. right. split; [reflexivity|]. split; [reflexivity|].
  destruct HI as [[H1 H1'] H2 H3 H4 H5 H6 H7 H8 H9].
  apply H9 in Er.
  assert (Hm : cap (ab w) < U64.modulus).
  { rewrite modulus_eq. rewrite maxAlloc_eq in H1'. unfold ptrSize in H1'. lia. }
  u64. f_equal.
  destruct (nextIndexFree (ab w) <=? nextIndexToDeliver (ab w) + 1) eqn:E; bools.
  - rewrite bool_decide_eq_false_2 by lia. reflexivity.
  - rewrite bool_decide_eq_true_2 by lia.
    unfold set_isReadyToDeliver, set_nextIndexToDeliver. simpl. f_equal.
    unfold Event_IsSet in H9. apply (proj2 H9). lia.
Qed.

Lemma Inv_GetNextToDeliver_locked w r w' :
  Inv w → GetNextToDeliver_locked w = (Done r, w') → Inv w'.
Proof.
  intros HI H. destruct (GetNextToDeliver_locked_Done w r w' HI H)
    as [(_ & -> & _)|(Er & _ & ->)]; [exact HI|].
  destruct HI as [H1 H2 H3 H4 H5 H6 H7 H8 H9].
  apply H9 in Er.
  split; simpl; try assumption; try lia.
  unfold Event_IsSet. rewrite bool_decide_eq_true. reflexivity.
Qed.

Lemma GetNextToDeliver_unfold timeout w :
  ∃ w1, same_store w w1 ∧ calls w1 = calls w ∧
    (GetNextToDeliver timeout w = (Done None, w1) ∧
       Event_IsSet (isReadyToDeliver (ab w)) = false
     ∨ GetNextToDeliver timeout w = GetNextToDeliver_locked w1 ∧ w1 = w ∧
       Event_IsSet (isReadyToDeliver (ab w)) = true).
Proof.
  unfold GetNextToDeliver, Event_WaitFor.
  destruct (Event_IsSet (isReadyToDeliver (ab w))) eqn:E; simpl.
  - exists w. split; [apply same_store_refl|]. split; [reflexivity|]. right.
    destruct w; auto.
  - eexists. split; [|split; [|left; split; reflexivity]].
    + split; reflexivity.
    + reflexivity.
Qed.

Lemma Inv_GetNextToDeliver timeout w r w' :
  Inv w → GetNextToDeliver timeout w = (Done r, w') → Inv w'.
Proof.
  intros HI H.
  destruct (GetNextToDeliver_unfold timeout w) as (w1 & Hs & _ & [[E _]|[E _]]);
    rewrite E in H.
  - injection H as <- <-. exact (Inv_same_store _ _ Hs HI).
  - eapply Inv_GetNextToDeliver_locked; [|exact H].
    exact (Inv_same_store _ _ Hs HI).
Qed.

(** *** Add *)

Lemma Add_locked_full e dl w :
  Event_IsSet (isAvailable (ab w)) = false →
  Add_locked e dl w =
    (Done (if (if dl is None then true else false) && isRunning (ab w)
           then Continue else Break), w).
Proof.
  intros H. unfold Add_locked. rewrite H. simpl.
  destruct ((if dl is None then true else false) && isRunning (ab w)); reflexivity.
Qed.

Lemma Add_locked_room e dl w m :
  Inv w → Event_IsSet (isAvailable (ab w)) = true → heap w !! e = Some m →
  Add_locked e dl w =
    if ackEvery (ab w) =? 0
    then (Panicked DivideByZero,
          set_ab (set_nextSeqNum (U64.add (nextSeqNum (ab w)) 1) (ab w))
            (set_heap (<[e := set_SeqNum (nextSeqNum (ab w)) m]> (heap w)) w))
    else (Done Added, admitted e m w).
Proof.
  intros [[H1 H1'] H2 H3 H4 H5 H6 H7 H8 H9] Ha Hm.
  unfold Add_locked. rewrite Ha, Hm. simpl.
  destruct (ackEvery (ab w) =? 0) eqn:Ez; [reflexivity|].
  pose proof Ha as Hset. unfold Event_IsSet in Hset. apply H8 in Ha.
  assert (Hmod : cap (ab w) < U64.modulus).
  { rewrite modulus_eq. rewrite maxAlloc_eq in H1'. unfold ptrSize in H1'. lia. }
  unfold cap in *. simpl.
  destruct (Z.of_nat (length (buff (ab w))) <=? nextIndexFree (ab w)) eqn:E1;
    bools; [lia|].
  rewrite length_insert.
  assert (Hnf : U64.add (nextIndexFree (ab w)) 1 = nextIndexFree (ab w) + 1).
  { unfold U64.add. apply wrap_small. lia. }
  assert (Hnf' : 0 <= nextIndexFree (ab w)) by lia.
  rewrite Hnf. unfold admitted, stamp, cap.
  destruct (nextSeqNum (ab w) mod ackEvery (ab w) =? 0) eqn:Es;
    destruct (Z.of_nat (length (buff (ab w))) <=? nextIndexFree (ab w) + 1) eqn:E2;
    bools; simpl; rewrite ?insert_insert_eq;
    rewrite ?bool_decide_eq_false_2 by lia; rewrite ?bool_decide_eq_true_2 by lia;
    unfold set_SeqNum, set_AckRequested, set_heap, set_ab, set_isReadyToDeliver,
      set_isAvailable, Event_Set, Event_Clear; simpl.
  all: rewrite ?Hset; reflexivity.
Qed.

Lemma Inv_admitted e m w :
  Inv w → Event_IsSet (isAvailable (ab w)) = true → Some e ∉ buff (ab w) →
  Inv (admitted e m w).
Proof.
  intros [[H1 H1'] H2 H3 H4 H5 H6 H7 H8 H9] Ha Hfresh.
  apply H8 in Ha.
  assert (Hlen : cap (ab (admitted e m w)) = cap (ab w)).
  { unfold cap, admitted. simpl. rewrite length_insert. reflexivity. }
  split; rewrite ?Hlen; simpl; try assumption; try lia.
  - rewrite H3. unfold U64.add. rewrite wrap_wrap_add. f_equal. lia.
  - intros i Hi. destruct (decide (Z.of_nat i = nextIndexFree (ab w))) as [Heq|Hne].
    + exists e, (stamp (nextSeqNum (ab w)) (ackEvery (ab w)) m). simpl.
      replace (Z.to_nat (nextIndexFree (ab w))) with i by lia.
      split; [|split].
      * apply list_lookup_insert_eq. unfold cap in Ha. lia.
      * apply lookup_insert_eq.
      * rewrite H3, Heq. reflexivity.
    + destruct (H6 i) as (p & m0 & Hp & Hm0 & Hs); [lia|].
      exists p, m0. simpl. split; [|split; [|exact Hs]].
      * rewrite list_lookup_insert_ne by lia. exact Hp.
      * rewrite lookup_insert_ne; [exact Hm0|].
        intros ->. apply Hfresh. eapply list_elem_of_lookup_2. exact Hp.
  - intros i Hi. rewrite list_lookup_insert_ne by lia. apply H7. lia.
  - unfold Event_IsSet. rewrite bool_decide_eq_true. reflexivity.
  - unfold Event_IsSet. split; [lia|reflexivity].
Qed.

Lemma Add_wait_same_store dl w : same_store w (snd (Add_wait dl w)).
Proof.
  unfold Add_wait, Event_WaitFor, call_if_set.
  destruct dl as [dl|]; [destruct (dl <? clock w)|];
    destruct (Event_IsSet (isAvailable (ab w))); simpl;
    try destruct (onBackPressure (ab w)); split; reflexivity.
Qed.

Lemma Add_locked_turn e dl w t w' :
  Add_locked e dl w = (Done t, w') → t = Added ∨ w' = w.
Proof.
  unfold Add_locked.
  destruct (negb (Event_IsSet (isAvailable (ab w)))).
  - destruct ((if dl is None then true else false) && isRunning (ab w));
      intros [= <- <-]; auto.
  - destruct (heap w !! e); [|discriminate].
    repeat match goal with
           | |- (if ?c then _ else _) = _ → _ => destruct c
           end; intros [= <- <-]; auto.
Qed.

Lemma Add_locked_not_Blocked e dl w w' : Add_locked e dl w ≠ (Blocked, w').
Proof.
  unfold Add_locked.
  destruct (negb (Event_IsSet (isAvailable (ab w)))).
  - destruct ((if dl is None then true else false) && isRunning (ab w));
      discriminate.
  - destruct (heap w !! e); [|discriminate].
    repeat match goal with
           | |- (if ?c then _ else _) ≠ _ => destruct c
           end; discriminate.
Qed.

(** How a call of [Add] ends: with the message admitted by the locked part
    of its last turn, or refused or still waiting with the store as it was,
    or in a panic of the locked part. *)
Lemma Add_loop_cases fuel e dl : ∀ w r w',
  Add_loop fuel e dl w = (r, w') →
  (r = Done true ∧ ∃ w1, same_store w w1 ∧ Add_locked e dl w1 = (Done Added, w'))
  ∨ ((r = Done false ∨ r = Blocked) ∧ same_store w w')
  ∨ (∃ p w1, r = Panicked p ∧ same_store w w1 ∧ Add_locked e dl w1 = (Panicked p, w')).
Proof.
  induction fuel as [|fuel IH]; intros w r w' H; simpl in H.
  - injection H as <- <-. right. left. split; [auto|apply same_store_refl].
  - pose proof (Add_wait_same_store dl w) as Hs.
    destruct (Add_wait dl w) as [locking w1]. simpl in Hs.
    destruct locking; simpl in H.
    2: { injection H as <- <-. right. left. auto. }
    destruct (Add_locked e dl w1) as [[t|p|] w2] eqn:EL.
    + destruct t.
      * injection H as <- <-. left. split; [reflexivity|]. exists w1. auto.
      * destruct (Add_locked_turn _ _ _ _ _ EL) as [Ht| ->]; [discriminate|].
        destruct (IH _ _ _ H)
          as [(-> & w3 & Hs3 & H3)|[[Hr Hs3]|(p & w3 & -> & Hs3 & H3)]].
        -- left. split; [reflexivity|]. exists w3.
           split; [exact (same_store_trans _ _ _ Hs Hs3)|exact H3].
        -- right. left. split; [exact Hr|exact (same_store_trans _ _ _ Hs Hs3)].
        -- right. right. exists p, w3. split; [reflexivity|].
           split; [exact (same_store_trans _ _ _ Hs Hs3)|exact H3].
      * destruct (Add_locked_turn _ _ _ _ _ EL) as [Ht| ->]; [discriminate|].
        injection H as <- <-. right. left. auto.
    + injection H as <- <-. right. right. exists p, w1. auto.
    + exfalso. exact (Add_locked_not_Blocked _ _ _ _ EL).
Qed.

(** The same for [Add]: the wait of its first turn starts at the second
    reading of the clock, with the store as it was. *)
Lemma Add_cases e timeout lag fuel w r w' :
  Add e timeout lag fuel w = (r, w') →
  (r = Done true
   ∧ ∃ dl w1, same_store w w1 ∧ Add_locked e dl w1 = (Done Added, w'))
  ∨ ((r = Done false ∨ r = Blocked) ∧ same_store w w')
  ∨ (∃ p dl w1, r = Panicked p ∧ same_store w w1
       ∧ Add_locked e dl w1 = (Panicked p, w')).
Proof.
  unfold Add. intros H.
  assert (Hgen : ∃ dl w0, same_store w w0 ∧ Add_loop fuel e dl w0 = (r, w')).
  { destruct (timeout =? 0).
    - exists None, w. split; [apply same_store_refl|exact H].
    - eexists _, _. split; [|exact H]. split; reflexivity. }
  destruct Hgen as (dl & w0 & Hs0 & H0).
  destruct (Add_loop_cases _ _ _ _ _ _ H0)
    as [(Hr & w1 & Hs & HL)|[[Hr Hs]|(p & w1 & Hr & Hs & HL)]].
  - left. split; [exact Hr|]. exists dl, w1.
    split; [exact (same_store_trans _ _ _ Hs0 Hs)|exact HL].
  - right. left. split; [exact Hr|exact (same_store_trans _ _ _ Hs0 Hs)].
  - right. right. exists p, dl, w1. split; [exact Hr|].
    split; [exact (same_store_trans _ _ _ Hs0 Hs)|exact HL].
Qed.

Lemma Add_Done_true e timeout lag fuel w w' :
  Inv w → Add e timeout lag fuel w = (Done true, w') →
  ∃ w1 m, same_store w w1 ∧ heap w !! e = Some m
    ∧ Event_IsSet (isAvailable (ab w)) = true ∧ ackEvery (ab w) ≠ 0
    ∧ w' = admitted e m w1.
Proof.
  intros HI H.
  destruct (Add_cases _ _ _ _ _ _ _ H)
    as [(_ & dl & w1 & Hs & HL)|[[[Hr|Hr] _]|(p & dl & w1 & Hr & _)]]; try discriminate.
  pose proof (Inv_same_store _ _ Hs HI) as HI1.
  destruct Hs as [Hh Hb].
  destruct (Event_IsSet (isAvailable (ab w1))) eqn:Ea.
  2: { rewrite Add_locked_full in HL by exact Ea.
       destruct (_ && _) in HL; discriminate. }
  destruct (heap w1 !! e) as [m|] eqn:Em.
  2: { unfold Add_locked in HL. rewrite Ea, Em in HL. discriminate. }
  rewrite (Add_locked_room e _ w1 m HI1 Ea Em) in HL.
  destruct (ackEvery (ab w1) =? 0) eqn:Ez; [discriminate|]. bools.
  injection HL as <-. exists w1, m. rewrite <- Hh, <- Hb. auto using same_store_refl.
  repeat split; auto.
Qed.

Lemma Add_not_admitted e timeout lag fuel w r w' :
  Add e timeout lag fuel w = (r, w') → r = Done false ∨ r = Blocked →
  same_store w w'.
Proof.
  intros H Hr.
  destruct (Add_cases _ _ _ _ _ _ _ H)
    as [(-> & _)|[[_ Hs]|(p & dl & w1 & -> & _)]];
    [destruct Hr; discriminate|exact Hs|destruct Hr; discriminate].
Qed.

Lemma Inv_Add e timeout lag fuel w w' :
  Inv w → Some e ∉ buff (ab w) →
  Add e timeout lag fuel w = (Done true, w') → Inv w'.
Proof.
  intros HI Hfresh H.
  destruct (Add_Done_true _ _ _ _ _ _ HI H) as (w1 & m & Hs & Hm & Ha & Hz & ->).
  pose proof (Inv_same_store _ _ Hs HI) as HI1. destruct Hs as [Hh Hb].
  apply Inv_admitted; rewrite ?Hb; assumption.
Qed.

(** *** Ack *)

Lemma compact_length k f bf : length (compact k f bf) = length bf.
Proof. unfold compact. rewrite clear_loop_length. apply shift_loop_length. Qed.

Lemma compact_lookup k f bf j :
  (k ≤ length bf)%nat → (f ≤ length bf - k)%nat →
  compact k f bf !! j =
    if decide (j < f)%nat then bf !! (j + k)%nat
    else if decide (j < length bf)%nat then Some None else None.
Proof.
  intros Hk Hf. unfold compact.
  rewrite clear_loop_lookup by (rewrite shift_loop_length; lia).
  rewrite shift_loop_length.
  destruct (decide (j < f)%nat) as [Hj|Hj].
  - rewrite decide_False by lia.
    rewrite shift_loop_lookup by lia. rewrite decide_True by lia. reflexivity.
  - destruct (decide (j < length bf)%nat) as [Hl|Hl].
    + rewrite decide_True by lia. reflexivity.
    + rewrite decide_False by lia.
      rewrite shift_loop_lookup by lia. rewrite decide_False by lia.
      apply lookup_ge_None. lia.
Qed.

(** As lists: the slots from [k] on, cut after [f], and empty slots up to
    the capacity. *)
Lemma compact_eq k f bf :
  (k ≤ length bf)%nat → (f ≤ length bf - k)%nat →
  compact k f bf = take f (drop k bf) ++ replicate (length bf - f) None.
Proof.
  intros Hk Hf. apply list_eq. intros j.
  rewrite compact_lookup by assumption.
  destruct (decide (j < f)%nat) as [Hj|Hj].
  - rewrite lookup_app_l by (rewrite length_take, length_drop; lia).
    rewrite lookup_take_lt by lia. rewrite lookup_drop. f_equal. lia.
  - rewrite lookup_app_r by (rewrite length_take, length_drop; lia).
    rewrite length_take, length_drop.
    replace (f `min` (length bf - k))%nat with f by lia.
    destruct (decide (j < length bf)%nat) as [Hl|Hl].
    + symmetry. apply lookup_replicate_2. lia.
    + symmetry. apply lookup_ge_None. rewrite length_replicate. lia.
Qed.

Lemma cap_lt_modulus w : Inv w → cap (ab w) < U64.modulus.
Proof.
  intros [[_ H] _ _ _ _ _ _ _ _]. rewrite modulus_eq.
  rewrite maxAlloc_eq in H. unfold ptrSize in H. lia.
Qed.

(** The three ways [Ack] goes once the lock is held. *)
Lemma Ack_locked_unfold seq w :
  Inv w →
  let b := ab w in
  let idx := U64.sub seq (firstSeqNum b) in
  Ack_locked seq w =
    if before_first seq b || after_next seq b
    then (Done (Some (ErrUnexpected seq)), w)
    else if nextIndexToDeliver b <=? idx
    then
      if nextIndexToDeliver b <? cap b
      then (Done (Some (ErrNotDelivered seq
              match buff b !! Z.to_nat (nextIndexToDeliver b) with
              | Some (Some p) => if heap w !! p is Some m then SeqNum m else 0
              | _ => 0
              end)), w)
      else (Panicked IndexOutOfRange, w)
    else (Done None, acked seq w).
Proof.
  intros HI b idx. pose proof (cap_lt_modulus w HI) as Hmod.
  destruct HI as [[H1 H1'] H2 H3 H4 H5 H6 H7 H8 H9]. fold b in H3, H4, H5, H8, H9, Hmod.
  unfold Ack_locked. fold b.
  destruct (before_first seq b); [reflexivity|].
  destruct (after_next seq b); [reflexivity|]. simpl. fold idx.
  destruct (nextIndexToDeliver b <=? idx) eqn:Ei; bools.
  - destruct (nextIndexToDeliver b <? cap b) eqn:Ec; bools.
    + destruct (lookup_lt_is_Some_2 (buff b) (Z.to_nat (nextIndexToDeliver b)))
        as [slot Hslot]; [unfold cap in Ec; lia|].
      rewrite Hslot. destruct slot; reflexivity.
    + rewrite (proj2 (lookup_ge_None _ _)); [reflexivity|]. unfold cap in Ec. lia.
  - assert (Hidx : 0 <= idx) by (apply wrap_range).
    unfold acked. fold b idx. f_equal. unfold set_ab. f_equal.
    assert (E1 : U64.add idx 1 = idx + 1) by (unfold U64.add; apply wrap_small; lia).
    assert (E2 : U64.sub (U64.sub (nextIndexFree b) idx) 1 = nextIndexFree b - idx - 1).
    { unfold U64.sub. rewrite (wrap_small (nextIndexFree b - idx)) by lia.
      apply wrap_small. lia. }
    assert (E3 : U64.sub (nextIndexToDeliver b) (idx + 1) = nextIndexToDeliver b - idx - 1).
    { unfold U64.sub. rewrite wrap_small by lia. lia. }
    rewrite E1, shift_loop_length, E2, E3.
    destruct (nextIndexFree b - idx - 1 <=? nextIndexToDeliver b - idx - 1) eqn:E; bools.
    + rewrite bool_decide_eq_false_2 by lia. reflexivity.
    + rewrite bool_decide_eq_true_2 by lia.
      assert (Hr : isReadyToDeliver b = true) by (apply (proj2 H9); lia).
      unfold compact, set_nextIndexToDeliver, set_isAvailable, set_buff,
        set_nextIndexFree, set_firstSeqNum, Event_Set; simpl.
      rewrite Hr. reflexivity.
Qed.

(** The sequence number of slot [i + idx + 1], seen from [seq + 1]. *)
Lemma wrap_shift seq first c :
  U64.add (U64.add seq 1) (c - U64.sub seq first - 1) = U64.add first c.
Proof.
  unfold U64.add, U64.sub. rewrite wrap_wrap_add. unfold U64.wrap.
  rewrite (Z.mod_eq (seq - first) U64.modulus) by (rewrite modulus_eq; lia).
  replace (seq + 1 + (c - (seq - first - U64.modulus * ((seq - first) / U64.modulus)) - 1))
    with (first + c + ((seq - first) / U64.modulus) * U64.modulus) by ring.
  apply Z_mod_plus_full.
Qed.

Lemma Inv_acked seq w :
  Inv w → U64.sub seq (firstSeqNum (ab w)) < nextIndexToDeliver (ab w) →
  Inv (acked seq w).
Proof.
  intros HI Hidx. pose proof (cap_lt_modulus w HI) as Hmod.
  destruct HI as [[H1 H1'] H2 H3 H4 H5 H6 H7 H8 H9].
  set (idx := U64.sub seq (firstSeqNum (ab w))) in *.
  assert (H0 : 0 <= idx) by apply wrap_range.
  assert (Hlen : cap (ab (acked seq w)) = cap (ab w)).
  { unfold cap, acked. simpl. rewrite compact_length. reflexivity. }
  assert (Hlook : ∀ j : nat,
    buff (ab (acked seq w)) !! j =
      if decide (Z.of_nat j < nextIndexFree (ab w) - idx - 1)
      then buff (ab w) !! (j + Z.to_nat (idx + 1))%nat
      else if decide (Z.of_nat j < cap (ab w)) then Some None else None).
  { intros j. unfold acked. simpl. fold idx. unfold cap in *.
    rewrite compact_lookup by lia.
    repeat case_decide; try lia; reflexivity. }
  split; rewrite ?Hlen; simpl; fold idx; try assumption; try lia.
  - apply wrap_range.
  - rewrite H3. symmetry. apply wrap_shift.
  - intros i Hi. destruct (H6 (i + Z.to_nat (idx + 1))%nat) as (p & m & Hp & Hm & Hs);
      [lia|].
    exists p, m. split; [|split; [exact Hm|]].
    + rewrite Hlook. rewrite decide_True by lia. exact Hp.
    + rewrite Hs. symmetry.
      replace (Z.of_nat i) with (Z.of_nat (i + Z.to_nat (idx + 1)) - idx - 1) by lia.
      apply wrap_shift.
  - intros i Hi. rewrite Hlook. rewrite decide_False by lia.
    rewrite decide_True by lia. reflexivity.
  - unfold Event_IsSet. split; [lia|reflexivity].
  - unfold Event_IsSet. rewrite bool_decide_eq_true. lia.
Qed.

Lemma Ack_locked_Done seq w r w' :
  Inv w → Ack_locked seq w = (Done r, w') →
  (r ≠ None ∧ w' = w)
  ∨ (r = None ∧ w' = acked seq w
     ∧ U64.sub seq (firstSeqNum (ab w)) < nextIndexToDeliver (ab w)
     ∧ before_first seq (ab w) = false ∧ after_next seq (ab w) = false).
Proof.
  intros HI. rewrite (Ack_locked_unfold seq w HI).
  destruct (before_first seq (ab w)); simpl.
  { intros [= <- <-]. left. split; [discriminate|reflexivity]. }
  destruct (after_next seq (ab w)); simpl.
  { intros [= <- <-]. left. split; [discriminate|reflexivity]. }
  destruct (nextIndexToDeliver (ab w) <=? _) eqn:E; bools.
  - destruct (nextIndexToDeliver (ab w) <? cap (ab w)); [|discriminate].
    intros [= <- <-]. left. split; [discriminate|reflexivity].
  - intros [= <- <-]. right. auto.
Qed.

Lemma Ack_same_store_hook w :
  same_store w (call_if_set (onAck (ab w)) w).
Proof. unfold call_if_set. destruct (onAck (ab w)); split; reflexivity. Qed.

Lemma acked_same_store seq w w1 :
  same_store w w1 → same_store (acked seq w) (acked seq w1).
Proof. intros [Hh Hb]. unfold acked. split; simpl; rewrite ?Hb, ?Hh; reflexivity. Qed.

Lemma Inv_Ack seq w r w' : Inv w → Ack seq w = (Done r, w') → Inv w'.
Proof.
  intros HI H. unfold Ack in H.
  pose proof (Ack_same_store_hook w) as Hs.
  pose proof (Inv_same_store _ _ Hs HI) as HI1.
  destruct (Ack_locked_Done _ _ _ _ HI1 H) as [[_ ->]|(_ & -> & Hidx & _)];
    [exact HI1|].
  apply Inv_acked; assumption.
Qed.

(** *** Every reachable state *)

Lemma NoWrap_acked n seq w :
  Inv w → U64.in_range seq →
  U64.sub seq (firstSeqNum (ab w)) < nextIndexToDeliver (ab w) →
  NoWrap n w → NoWrap n (acked seq w).
Proof.
  intros [[H1 H1'] H2 H3 H4 H5 H6 H7 H8 H9] Hseq Hidx (Hf & Hsum & Hn).
  unfold NoWrap, acked. simpl.
  unfold U64.sub, U64.add, U64.wrap, U64.in_range in *.
  rewrite modulus_eq in *.
  destruct (Z_lt_le_dec seq (firstSeqNum (ab w))) as [Hlt|Hge].
  - exfalso.
    assert (E : (seq - firstSeqNum (ab w)) mod 18446744073709551616
                = seq - firstSeqNum (ab w) + 18446744073709551616).
    { symmetry. apply (Z.mod_unique _ _ (-1)); lia. }
    lia.
  - rewrite (Z.mod_small (seq - firstSeqNum (ab w))) in * by lia.
    rewrite Z.mod_small by lia. lia.
Qed.

Lemma NoWrap_admitted n e m w :
  Inv w → Event_IsSet (isAvailable (ab w)) = true →
  1 + Z.of_nat (S n) < U64.modulus →
  NoWrap n w → NoWrap (S n) (admitted e m w).
Proof.
  intros HI Ha Hb (Hf & Hsum & Hn). unfold NoWrap, admitted. simpl. lia.
Qed.

Theorem reach_Inv o n w : reach o n w → Inv w.
Proof.
  induction 1 as [b h t Hr Hb|n w d _ IH _|n w l m _ IH Hl
                 |n w e timeout lag fuel w' _ IH Hfresh HA
                 |n w e timeout lag fuel r w' _ IH HA Hr
                 |n w seq r w' _ IH Hseq HA|n w timeout r w' _ IH HN
                 |n w _ IH|n w _ IH].
  - exact (Inv_new o b h t Hr Hb).
  - apply Inv_tick. exact IH.
  - apply Inv_alloc; assumption.
  - exact (Inv_Add _ _ _ _ _ _ IH Hfresh HA).
  - exact (Inv_same_store _ _ (Add_not_admitted _ _ _ _ _ _ _ HA Hr) IH).
  - exact (Inv_Ack _ _ _ _ IH HA).
  - exact (Inv_GetNextToDeliver _ _ _ _ IH HN).
  - apply Inv_ResetDelivery. exact IH.
  - apply Inv_Close. exact IH.
Qed.

Theorem reach_NoWrap o n w :
  reach o n w → 1 + Z.of_nat n < U64.modulus → NoWrap n w.
Proof.
  induction 1 as [b h t Hr Hb|n w d Hw IH _|n w l m Hw IH Hl
                 |n w e timeout lag fuel w' Hw IH Hfresh HA
                 |n w e timeout lag fuel r w' Hw IH HA Hr
                 |n w seq r w' Hw IH Hseq HA|n w timeout r w' Hw IH HN
                 |n w Hw IH|n w Hw IH]; intros Hn.
  - destruct (NewAckBuffer_Done o b Hr Hb) as (-> & _). unfold NoWrap. simpl. lia.
  - exact (IH Hn).
  - exact (IH Hn).
  - pose proof (reach_Inv _ _ _ Hw) as HI.
    destruct (Add_Done_true _ _ _ _ _ _ HI HA) as (w1 & m & Hs & Hm & Ha & Hz & ->).
    destruct Hs as [Hh Hb].
    apply NoWrap_admitted; rewrite ?Hb; try assumption.
    + exact (Inv_same_store _ _ (conj Hh Hb) HI).
    + apply (NoWrap_same_store n w w1 (conj Hh Hb)). apply IH. lia.
  - exact (NoWrap_same_store _ _ _ (Add_not_admitted _ _ _ _ _ _ _ HA Hr) (IH Hn)).
  - pose proof (reach_Inv _ _ _ Hw) as HI. unfold Ack in HA.
    pose proof (Ack_same_store_hook w) as Hs.
    pose proof (Inv_same_store _ _ Hs HI) as HI1.
    pose proof (NoWrap_same_store _ _ _ Hs (IH Hn)) as HN1.
    destruct (Ack_locked_Done _ _ _ _ HI1 HA) as [[_ ->]|(_ & -> & Hidx & _)];
      [exact HN1|].
    apply NoWrap_acked; assumption.
  - pose proof (reach_Inv _ _ _ Hw) as HI. specialize (IH Hn).
    destruct (GetNextToDeliver_unfold timeout w) as (w1 & Hs & _ & [[E _]|[E _]]);
      rewrite E in HN.
    + injection HN as <- <-. exact (NoWrap_same_store _ _ _ Hs IH).
    + pose proof (Inv_same_store _ _ Hs HI) as HI1.
      pose proof (NoWrap_same_store _ _ _ Hs IH) as HN1.
      destruct (GetNextToDeliver_locked_Done _ _ _ HI1 HN)
        as [(_ & -> & _)|(_ & _ & ->)]; [exact HN1|exact HN1].
  - specialize (IH Hn). unfold NoWrap, ResetDelivery in *. simpl.
    destruct (nextIndexFree (ab w) <=? 0); exact IH.
  - exact (IH Hn).
Qed.

(** *** What construction fixes *)

Lemma configured_ResetDelivery o w :
  configured o (ab w) → configured o (ab (ResetDelivery w)).
Proof.
  unfold ResetDelivery. simpl.
  destruct (nextIndexFree (ab w) <=? 0); exact (fun H => H).
Qed.

Theorem reach_configured o n w : reach o n w → configured o (ab w).
Proof.
  induction 1 as [b h t Hr Hb|n w d Hw IH _|n w l m Hw IH Hl
                 |n w e timeout lag fuel w' Hw IH Hfresh HA
                 |n w e timeout lag fuel r w' Hw IH HA Hr
                 |n w seq r w' Hw IH Hseq HA|n w timeout r w' Hw IH HN
                 |n w Hw IH|n w Hw IH].
  - destruct (NewAckBuffer_Done o b Hr Hb) as (-> & Hc & _).
    unfold configured, cap. simpl. rewrite length_replicate.
    repeat split; lia.
  - exact IH.
  - exact IH.
  - pose proof (reach_Inv _ _ _ Hw) as HI.
    destruct (Add_Done_true _ _ _ _ _ _ HI HA) as (w1 & m & [_ Hb] & _ & _ & _ & ->).
    unfold configured, admitted, cap in *. simpl. rewrite length_insert, Hb. exact IH.
  - destruct (Add_not_admitted _ _ _ _ _ _ _ HA Hr) as [_ ->]. exact IH.
  - pose proof (reach_Inv _ _ _ Hw) as HI. unfold Ack in HA.
    pose proof (Ack_same_store_hook w) as Hs.
    pose proof (Inv_same_store _ _ Hs HI) as HI1. destruct Hs as [_ Hb].
    destruct (Ack_locked_Done _ _ _ _ HI1 HA) as [[_ ->]|(_ & -> & _)].
    + rewrite Hb. exact IH.
    + unfold configured, acked, cap in *. simpl. rewrite compact_length, Hb. exact IH.
  - pose proof (reach_Inv _ _ _ Hw) as HI.
    destruct (GetNextToDeliver_unfold timeout w) as (w1 & Hs & _ & [[E _]|[E _]]);
      rewrite E in HN.
    + injection HN as <- <-. destruct Hs as [_ ->]. exact IH.
    + pose proof (Inv_same_store _ _ Hs HI) as HI1. destruct Hs as [_ Hb].
      destruct (GetNextToDeliver_locked_Done _ _ _ HI1 HN)
        as [(_ & -> & _)|(_ & _ & ->)]; [rewrite Hb; exact IH|].
      unfold configured, cap in *. simpl. rewrite Hb. exact IH.
  - apply configured_ResetDelivery. exact IH.
  - exact IH.
Qed.

(** *** A trace that replays reaches its last state *)

Lemma replay_reach o fuel cs : ∀ n w n' w',
  reach o n w → replay fuel cs n w = Some (n', w') → reach o n' w'.
Proof.
  induction cs as [|c cs IH]; intros n w n' w' Hw H; simpl in H.
  - injection H as <- <-. exact Hw.
  - destruct c as [e timeout lag|seq|timeout| | |d].
    + destruct (Add e timeout lag fuel w) as [[[|]|p|] w1] eqn:EA.
      * destruct (bool_decide (Some e ∉ buff (ab w))) eqn:Ef; [|discriminate].
        apply bool_decide_eq_true in Ef.
        exact (IH _ _ _ _ (reach_Add o n w e timeout lag fuel w1 Hw Ef EA) H).
      * refine (IH _ _ _ _ (reach_Add_not o n w e timeout lag fuel _ w1 Hw EA _) H). auto.
      * discriminate.
      * refine (IH _ _ _ _ (reach_Add_not o n w e timeout lag fuel _ w1 Hw EA _) H). auto.
    + destruct ((0 <=? seq) && (seq <? U64.modulus)) eqn:Er; [|discriminate]. bools.
      destruct (Ack seq w) as [[r|p|] w1] eqn:EA; try discriminate.
      refine (IH _ _ _ _ (reach_Ack o n w seq r w1 Hw _ EA) H). split; assumption.
    + destruct (GetNextToDeliver timeout w) as [[r|p|] w1] eqn:EN; try discriminate.
      exact (IH _ _ _ _ (reach_Next o n w timeout r w1 Hw EN) H).
    + exact (IH _ _ _ _ (reach_Reset o n w Hw) H).
    + exact (IH _ _ _ _ (reach_Close o n w Hw) H).
    + destruct (0 <=? d) eqn:Ed; [|discriminate]. bools.
      exact (IH _ _ _ _ (reach_tick o n w d Hw Ed) H).
Qed.

(** ** The worked states are reachable *)

Lemma reach_fresh c :
  0 < c < 1000 → reach (opts c) 0 (fresh c).
Proof.
  intros Hc. apply reach_new.
  - unfold U64.in_range. simpl. rewrite modulus_eq. lia.
  - unfold NewAckBuffer. simpl.
    destruct (c =? 0) eqn:E; bools; [lia|].
    destruct (maxAlloc <? c * ptrSize) eqn:E2; bools.
    + rewrite maxAlloc_eq in E2. unfold ptrSize in E2. lia.
    + rewrite ackShare_half by lia. reflexivity.
Qed.

Lemma reach_after c cs n w :
  0 < c < 1000 → replay 1 cs 0 (fresh c) = Some (n, w) → reach (opts c) n w.
Proof. intros Hc H. exact (replay_reach _ _ _ _ _ _ _ (reach_fresh c Hc) H). Qed.

Lemma reach_full4 : reach (opts 4) 4 full4.
Proof. apply (reach_after 4 admit4); [lia|]. vm_compute. reflexivity. Qed.

Lemma reach_delivered4 : reach (opts 4) 4 delivered4.
Proof. apply (reach_after 4 (admit4 ++ deliver4)); [lia|]. vm_compute. reflexivity. Qed.

(** ** Add with room *)

(** A wait that has not timed out ends at the lock when there is room. *)
Lemma Add_wait_room dl w :
  Event_IsSet (isAvailable (ab w)) = true →
  (if dl is Some d then clock w <= d else True) →
  Add_wait dl w = (true, w).
Proof.
  intros Ha Hd. unfold Add_wait, Event_WaitFor. rewrite Ha. simpl.
  destruct dl as [d|].
  - destruct (d <? clock w) eqn:E; bools; [lia|]. destruct w; reflexivity.
  - destruct w; reflexivity.
Qed.

(** The second reading of the clock changes no message and no field. *)
Lemma at_loop_same_store timeout lag w : same_store w (at_loop timeout lag w).
Proof. unfold at_loop. destruct (timeout =? 0); split; reflexivity. Qed.

Lemma Add_at_loop e timeout lag fuel w :
  Add e timeout lag fuel w
  = Add_loop fuel e (if timeout =? 0 then None else Some (clock w + timeout))
      (at_loop timeout lag w).
Proof. unfold Add, at_loop. destruct (timeout =? 0); reflexivity. Qed.

(** With room in the buffer, a deadline that has not passed at the first
    check and a stride that is not 0, one turn of the loop admits the
    message. *)
Lemma Add_room o n w e m timeout lag fuel :
  reach o n w → 2 <= capacity_of o →
  Event_IsSet (isAvailable (ab w)) = true → heap w !! e = Some m →
  in_time timeout lag →
  Add e timeout lag (S fuel) w = (Done true, admitted e m (at_loop timeout lag w)).
Proof.
  intros Hw Hc Ha Hm Ht.
  pose proof (reach_Inv _ _ _ Hw) as HI.
  destruct (reach_configured _ _ _ Hw) as (_ & Hev & _).
  assert (H1 : 1 <= ackEvery (ab w)).
  { rewrite Hev. apply Z.div_le_lower_bound; lia. }
  pose proof (at_loop_same_store timeout lag w) as Hs.
  pose proof (Inv_same_store _ _ Hs HI) as HI1. destruct Hs as [Hh Hb].
  rewrite Add_at_loop. simpl. rewrite Add_wait_room.
  - simpl. rewrite (Add_locked_room e _ _ m HI1); [|rewrite Hb; exact Ha|rewrite Hh; exact Hm].
    rewrite Hb.
    destruct (ackEvery (ab w) =? 0) eqn:E; bools; [lia|reflexivity].
  - rewrite Hb. exact Ha.
  - unfold at_loop. destruct (timeout =? 0) eqn:E0; bools; [exact I|].
    simpl. destruct Ht; lia.
Qed.

(** * The claims *)

(** ** The invariants on every quiescent state *)

(** Without a wrap the two additions agree on the sequence numbers held. *)
Lemma NoWrap_plus n w i :
  Inv w → NoWrap n w → 0 <= i <= nextIndexFree (ab w) →
  U64.add (firstSeqNum (ab w)) i = firstSeqNum (ab w) + i.
Proof.
  intros HI (Hf & Hsum & Hn) Hi. unfold U64.add. apply wrap_small. lia.
Qed.

(** The form of the invariants that the other claims use. *)
Lemma quiescent_invariants_aux o n w :
  reach o n w → 1 + Z.of_nat n < U64.modulus →
  spec_invariants Z.add (capacity_of o) w.
Proof.
  intros Hw Hn. pose proof (reach_Inv _ _ _ Hw) as HI.
  pose proof (reach_NoWrap _ _ _ Hw Hn) as HN.
  destruct (reach_configured _ _ _ Hw) as (Hc & _).
  destruct HI as [H1 H2 H3 H4 H5 H6 H7 H8 H9]. unfold spec_invariants.
  rewrite <- Hc.
  assert (HI : Inv w) by (split; assumption).
  repeat split; try assumption; try lia; try apply H8; try apply H9.
  - rewrite H3. apply (NoWrap_plus n); [assumption|assumption|lia].
  - intros i Hi. rewrite <- (NoWrap_plus n w) by (assumption || lia).
    apply H6. exact Hi.
Qed.

(** C4.  Every state reached by calls of Add, Ack, GetNextToDeliver,
    ResetDelivery (and Close) satisfies the invariants of the data model:
    next_seq = first_seq + next_free; 0 <= deliver_cursor <= next_free <= C;
    slot i holds sequence number first_seq + i below next_free and is empty
    from next_free on; available is set iff next_free < C; ready is set iff
    deliver_cursor < next_free.  The sums are those of uint64; they are the
    plain sums as long as fewer than 2^64 - 1 messages were admitted. *)
Theorem quiescent_invariants o n w :
  reach o n w →
  spec_invariants U64.add (capacity_of o) w
  ∧ (1 + Z.of_nat n < U64.modulus → spec_invariants Z.add (capacity_of o) w).
Proof.
  intros Hw. split; [|exact (quiescent_invariants_aux o n w Hw)].
  pose proof (reach_Inv _ _ _ Hw) as HI.
  destruct (reach_configured _ _ _ Hw) as (Hc & _).
  destruct HI as [H1 H2 H3 H4 H5 H6 H7 H8 H9]. unfold spec_invariants.
  rewrite <- Hc. repeat split; try assumption; try lia; try apply H8; apply H9.
Qed.

Lemma quiescent_invariants_witness :
  spec_invariants U64.add 4 delivered4
  ∧ (1 + Z.of_nat 4 < U64.modulus → spec_invariants Z.add 4 delivered4).
Proof. exact (quiescent_invariants (opts 4) 4 delivered4 reach_delivered4). Defined.

(** ** The stride of the ack requests *)

Lemma stride_multiple seq every :
  0 < seq → every ≠ 0 →
  (seq mod every =? 0) = true ↔ ∃ k, k ≠ 0 ∧ seq = k * every.
Proof.
  intros Hs He. rewrite Z.eqb_eq. split.
  - intros Hm. exists (seq / every). split.
    + intros Hz. pose proof (Z.div_mod seq every He) as Hd. rewrite Hz, Hm in Hd. lia.
    + pose proof (Z.div_mod seq every He) as Hd. lia.
  - intros (k & _ & ->). apply Z_mod_mult.
Qed.

Lemma reach_five4 : reach (opts 4) 5 five4.
Proof.
  apply (reach_after 4 (admit4 ++ deliver4 ++ [CallAck 2; CallAdd 5 1000 100])); [lia|].
  vm_compute. reflexivity.
Qed.

(** C6.  A message that carries no flag when it is handed to Add carries,
    once admitted into a buffer of capacity C, the flag ack_requested iff
    the sequence number it was given, which is next_seq, is a nonzero
    multiple of floor(C/2), whatever time passes between the two readings
    of the clock.  And Add does admit: with room in the buffer, a capacity
    of 2 or more and a deadline that has not passed when the loop first
    checks it (as with timeout 0, which sets none), its first turn does.
    (Sequence numbers as they are before the counter wraps, that is below
    2^64 - 1 admissions.) *)
Theorem ack_requested_on_stride o n w e m timeout lag fuel :
  reach o n w → 1 + Z.of_nat n < U64.modulus →
  heap w !! e = Some m → AckRequested m = false →
  (∀ w', Add e timeout lag fuel w = (Done true, w') →
     ∃ m', heap w' !! e = Some m'
       ∧ SeqNum m' = nextSeqNum (ab w)
       ∧ Payload m' = Payload m
       ∧ (AckRequested m' = true ↔
          ∃ k, k ≠ 0 ∧ SeqNum m' = k * (capacity_of o / 2)))
  ∧ (2 <= capacity_of o → Event_IsSet (isAvailable (ab w)) = true →
     in_time timeout lag →
     ∃ w', Add e timeout lag (S fuel) w = (Done true, w')).
Proof.
  intros Hw Hn Hm Hflag. split.
  - intros w' HA.
    pose proof (reach_Inv _ _ _ Hw) as HI.
    pose proof (reach_NoWrap _ _ _ Hw Hn) as (Hf & Hsum & _).
    destruct (reach_configured _ _ _ Hw) as (_ & Hev & _).
    destruct (Add_Done_true _ _ _ _ _ _ HI HA)
      as (w1 & m1 & [Hh Hb] & Hm1 & Ha & Hz & ->).
    assert (m1 = m) as -> by congruence.
    assert (Hseq : 0 < nextSeqNum (ab w)).
    { rewrite (inv_next_seq _ HI). rewrite (NoWrap_plus n); try assumption; try lia.
      - repeat split; assumption.
      - pose proof (inv_cursor _ HI). lia. }
    exists (stamp (nextSeqNum (ab w)) (ackEvery (ab w)) m).
    unfold admitted. simpl. rewrite Hb. split; [apply lookup_insert_eq|].
    split; [reflexivity|]. split; [reflexivity|].
    rewrite <- Hev. rewrite <- stride_multiple by assumption.
    destruct (nextSeqNum (ab w) mod ackEvery (ab w) =? 0); [tauto|].
    rewrite Hflag. tauto.
  - intros Hc Ha Ht. eexists.
    exact (Add_room o n w e m timeout lag fuel Hw Hc Ha Hm Ht).
Qed.

(** The sixth message on a buffer of capacity 4 is given the sequence
    number 6 = 3 * 2 and the flag. *)
Lemma ack_requested_on_stride_witness :
  (∀ w', Add 6%nat 1000 100 (S 0) five4 = (Done true, w') →
     ∃ m', heap w' !! 6%nat = Some m'
       ∧ SeqNum m' = nextSeqNum (ab five4)
       ∧ Payload m' = Payload (blank 60)
       ∧ (AckRequested m' = true ↔
          ∃ k, k ≠ 0 ∧ SeqNum m' = k * (capacity_of (opts 4) / 2)))
  ∧ ∃ w', Add 6%nat 1000 100 (S 0) five4 = (Done true, w').
Proof.
  assert (Hn : 1 + Z.of_nat 5 < U64.modulus) by (rewrite modulus_eq; lia).
  assert (Hm : heap five4 !! 6%nat = Some (blank 60)) by (vm_compute; reflexivity).
  assert (Hc : 2 <= capacity_of (opts 4)) by (vm_compute; discriminate).
  assert (Ha : Event_IsSet (isAvailable (ab five4)) = true) by (vm_compute; reflexivity).
  assert (Ht : in_time 1000 100) by (right; lia).
  pose proof (ack_requested_on_stride (opts 4) 5 five4 6%nat (blank 60) 1000 100 1%nat
                reach_five4 Hn Hm eq_refl) as [H1 _].
  pose proof (ack_requested_on_stride (opts 4) 5 five4 6%nat (blank 60) 1000 100 0%nat
                reach_five4 Hn Hm eq_refl) as [_ H2].
  split; [exact H1|exact (H2 Hc Ha Ht)].
Defined.

Example sixth_message_flagged :
  fst (Add 6%nat 1000 100 1%nat five4) = Done true
  ∧ heap (snd (Add 6%nat 1000 100 1%nat five4)) !! 6%nat
    = Some (mkDataMessage 6 true 60)
  ∧ heap five4 !! 5%nat = Some (mkDataMessage 5 false 50).
Proof. vm_compute. repeat split; reflexivity. Qed.

(** ** Replay from the head *)

(** C7.  ResetDelivery puts the cursor at 0 and leaves the ready latch set
    iff next_free > 0; on a buffer that holds a message, the
    GetNextToDeliver that follows returns the message of slot 0, whose
    sequence number is first_seq and is the smallest in the buffer, and
    leaves the slots, next_free and the messages as they were. *)
Theorem ResetDelivery_replays_head o n w timeout :
  (nextIndexToDeliver (ab (ResetDelivery w)) = 0
   ∧ Event_IsSet (isReadyToDeliver (ab (ResetDelivery w)))
     = bool_decide (0 < nextIndexFree (ab w)))
  ∧ (reach o n w → 1 + Z.of_nat n < U64.modulus → 0 < nextIndexFree (ab w) →
     ∃ p m w',
       GetNextToDeliver timeout (ResetDelivery w) = (Done (Some p), w')
       ∧ buff (ab w) !! 0%nat = Some (Some p)
       ∧ heap w !! p = Some m
       ∧ SeqNum m = firstSeqNum (ab w)
       ∧ (∀ (i : nat) q m', buff (ab w) !! i = Some (Some q) →
            heap w !! q = Some m' → SeqNum m <= SeqNum m')
       ∧ buff (ab w') = buff (ab w)
       ∧ nextIndexFree (ab w') = nextIndexFree (ab w)
       ∧ firstSeqNum (ab w') = firstSeqNum (ab w)
       ∧ heap w' = heap w).
Proof.
  split.
  - unfold ResetDelivery. simpl.
    destruct (nextIndexFree (ab w) <=? 0) eqn:E; bools; simpl.
    + rewrite bool_decide_eq_false_2 by lia. auto.
    + rewrite bool_decide_eq_true_2 by lia. auto.
  - intros Hw Hn Hnf.
    destruct (quiescent_invariants_aux o n w Hw Hn) as (U1 & U2 & U3 & U4 & U5 & U6 & U7).
    destruct (U4 0%nat) as (p & m & Hp & Hm & Hs); [lia|].
    exists p, m. unfold GetNextToDeliver, ResetDelivery, Event_WaitFor. simpl.
    destruct (nextIndexFree (ab w) <=? 0) eqn:E; bools; [lia|]. simpl.
    unfold GetNextToDeliver_locked. simpl.
    change (Z.to_nat 0) with 0%nat. rewrite Hp.
    eexists. split; [reflexivity|].
    split; [reflexivity|]. split; [exact Hm|]. split; [lia|].
    split.
    + intros i q m' Hq Hm'.
      destruct (Z_lt_le_dec (Z.of_nat i) (nextIndexFree (ab w))) as [Hi|Hi].
      * destruct (U4 i Hi) as (q' & m'' & Hq' & Hm'' & Hs').
        assert (q' = q) as -> by congruence. assert (m'' = m') as -> by congruence.
        lia.
      * rewrite U5 in Hq; [discriminate|].
        apply lookup_lt_Some in Hq. unfold cap in U1. lia.
    + destruct (nextIndexFree (ab w) <=? U64.add 0 1); auto.
Qed.

Lemma ResetDelivery_replays_head_witness :
  ∃ p m w',
    GetNextToDeliver 1000 (ResetDelivery delivered4) = (Done (Some p), w')
    ∧ buff (ab delivered4) !! 0%nat = Some (Some p)
    ∧ heap delivered4 !! p = Some m
    ∧ SeqNum m = firstSeqNum (ab delivered4)
    ∧ (∀ (i : nat) q m', buff (ab delivered4) !! i = Some (Some q) →
         heap delivered4 !! q = Some m' → SeqNum m <= SeqNum m')
    ∧ buff (ab w') = buff (ab delivered4)
    ∧ nextIndexFree (ab w') = nextIndexFree (ab delivered4)
    ∧ firstSeqNum (ab w') = firstSeqNum (ab delivered4)
    ∧ heap w' = heap delivered4.
Proof.
  apply (proj2 (ResetDelivery_replays_head (opts 4) 4 delivered4 1000)).
  - exact reach_delivered4.
  - rewrite modulus_eq. lia.
  - vm_compute. reflexivity.
Defined.

(** ** Compaction by a valid ack *)

(** A sequence number that Ack accepts passes the two guards, and its index
    is the plain difference. *)
Lemma valid_seq_passes o n w seq :
  reach o n w → 1 + Z.of_nat n < U64.modulus →
  firstSeqNum (ab w) <= seq < firstSeqNum (ab w) + nextIndexToDeliver (ab w) →
  before_first seq (ab w) = false ∧ after_next seq (ab w) = false
  ∧ U64.sub seq (firstSeqNum (ab w)) = seq - firstSeqNum (ab w).
Proof.
  intros Hw Hn Hseq.
  destruct (quiescent_invariants_aux o n w Hw Hn) as (U1 & U2 & U3 & _).
  pose proof (reach_NoWrap _ _ _ Hw Hn) as (Hf & Hsum & _).
  unfold before_first, after_next. split; [|split].
  - apply andb_false_iff. left. apply Z.ltb_ge. lia.
  - apply andb_false_iff. left. apply Z.leb_gt. lia.
  - unfold U64.sub. apply wrap_small. lia.
Qed.

(** [Ack] accepts a sequence number in
    [[first_seq, first_seq + deliver_cursor)]. *)
Lemma Ack_valid o n w seq :
  reach o n w → 1 + Z.of_nat n < U64.modulus →
  firstSeqNum (ab w) <= seq < firstSeqNum (ab w) + nextIndexToDeliver (ab w) →
  Ack seq w = (Done None, acked seq (call_if_set (onAck (ab w)) w)).
Proof.
  intros Hw Hn Hseq.
  pose proof (reach_Inv _ _ _ Hw) as HI.
  destruct (valid_seq_passes o n w seq Hw Hn Hseq) as (G1 & G2 & Hsub).
  pose proof (Ack_same_store_hook w) as Hs.
  pose proof (Inv_same_store _ _ Hs HI) as HI1. destruct Hs as [Hh Hb].
  unfold Ack. rewrite (Ack_locked_unfold seq _ HI1). rewrite Hb.
  rewrite G1, G2, Hsub. simpl.
  destruct (nextIndexToDeliver (ab w) <=? seq - firstSeqNum (ab w)) eqn:E;
    bools; [lia|reflexivity].
Qed.

(** C5.  A valid Ack(seq), with idx = seq - first_seq, moves the slots
    [idx+1, next_free) to the front and empties the rest, sets first_seq to
    seq + 1, takes idx + 1 off next_free and off the cursor, raises
    available, and lowers ready iff the cursor then equals next_free; the
    messages themselves and next_seq are left alone. *)
Theorem Ack_compacts o n w seq :
  reach o n w → 1 + Z.of_nat n < U64.modulus →
  firstSeqNum (ab w) <= seq < firstSeqNum (ab w) + nextIndexToDeliver (ab w) →
  let b := ab w in
  let idx := seq - firstSeqNum b in
  ∃ w', Ack seq w = (Done None, w')
    ∧ buff (ab w') =
        take (Z.to_nat (nextIndexFree b - (idx + 1)))
             (drop (Z.to_nat (idx + 1)) (buff b))
        ++ replicate (Z.to_nat (cap b - (nextIndexFree b - (idx + 1)))) None
    ∧ firstSeqNum (ab w') = seq + 1
    ∧ nextIndexFree (ab w') = nextIndexFree b - (idx + 1)
    ∧ nextIndexToDeliver (ab w') = nextIndexToDeliver b - (idx + 1)
    ∧ Event_IsSet (isAvailable (ab w')) = true
    ∧ Event_IsSet (isReadyToDeliver (ab w')) =
        (if decide (nextIndexToDeliver (ab w') = nextIndexFree (ab w'))
         then false else Event_IsSet (isReadyToDeliver b))
    ∧ nextSeqNum (ab w') = nextSeqNum b
    ∧ heap w' = heap w.
Proof.
  intros Hw Hn Hseq b idx. subst b idx.
  destruct (valid_seq_passes o n w seq Hw Hn Hseq) as (_ & _ & Hsub).
  destruct (quiescent_invariants_aux o n w Hw Hn) as (U1 & U2 & U3 & _ & _ & _ & U7).
  pose proof (reach_NoWrap _ _ _ Hw Hn) as (Hf & Hsum & Hm).
  destruct (Ack_same_store_hook w) as [Hh Hb].
  eexists. split; [exact (Ack_valid o n w seq Hw Hn Hseq)|].
  unfold acked. rewrite Hb. simpl. rewrite Hsub. unfold cap in *.
  repeat split.
  - rewrite compact_eq by lia.
    f_equal; [f_equal; lia|f_equal; lia].
  - unfold U64.add. apply wrap_small. lia.
  - lia.
  - lia.
  - unfold Event_IsSet. case_decide as Hd.
    + apply bool_decide_eq_false_2. lia.
    + apply eq_true_iff_eq. rewrite bool_decide_eq_true. unfold Event_IsSet in U7.
      symmetry. exact U7.
  - unfold call_if_set. destruct (onAck (ab w)); reflexivity.
Qed.

Lemma Ack_compacts_witness :
  let b := ab delivered4 in
  let idx := 2 - firstSeqNum b in
  ∃ w', Ack 2 delivered4 = (Done None, w')
    ∧ buff (ab w') =
        take (Z.to_nat (nextIndexFree b - (idx + 1)))
             (drop (Z.to_nat (idx + 1)) (buff b))
        ++ replicate (Z.to_nat (cap b - (nextIndexFree b - (idx + 1)))) None
    ∧ firstSeqNum (ab w') = 2 + 1
    ∧ nextIndexFree (ab w') = nextIndexFree b - (idx + 1)
    ∧ nextIndexToDeliver (ab w') = nextIndexToDeliver b - (idx + 1)
    ∧ Event_IsSet (isAvailable (ab w')) = true
    ∧ Event_IsSet (isReadyToDeliver (ab w')) =
        (if decide (nextIndexToDeliver (ab w') = nextIndexFree (ab w'))
         then false else Event_IsSet (isReadyToDeliver b))
    ∧ nextSeqNum (ab w') = nextSeqNum b
    ∧ heap w' = heap delivered4.
Proof.
  refine (Ack_compacts (opts 4) 4 delivered4 2 reach_delivered4 _ _).
  - rewrite modulus_eq. lia.
  - vm_compute. split; [discriminate|reflexivity].
Defined.

(** The scenario of C5: capacity 4, four messages admitted and delivered,
    the ack of 2.  The messages numbered 3 and 4 are left, available is set,
    and a fifth message is admitted at once. *)
Example ack_compaction_scenario :
  let w := snd (Ack 2 delivered4) in
  fst (Ack 2 delivered4) = Done None
  ∧ GetUnAcked w = Done [Some 3%nat; Some 4%nat]
  ∧ seqs_of w [Some 3%nat; Some 4%nat] = [Some 3; Some 4]
  ∧ buff (ab w) = [Some 3%nat; Some 4%nat; None; None]
  ∧ Event_IsSet (isAvailable (ab w)) = true
  ∧ fst (Add 5%nat 1000 100 1%nat w) = Done true
  ∧ buff (ab (snd (Add 5%nat 1000 100 1%nat w)))
    = [Some 3%nat; Some 4%nat; Some 5%nat; None].
Proof. vm_compute. repeat split; reflexivity. Qed.

(** ** The callback of Ack *)

Lemma Ack_locked_calls seq w : calls (snd (Ack_locked seq w)) = calls w.
Proof.
  unfold Ack_locked.
  destruct (before_first seq (ab w)); [reflexivity|].
  destruct (after_next seq (ab w)); [reflexivity|].
  destruct (nextIndexToDeliver (ab w) <=? _).
  - destruct (buff (ab w) !! _); reflexivity.
  - reflexivity.
Qed.

(** C10.  Ack calls the callback on_ack, when there is one, before it takes
    the lock and before it looks at the sequence number: whatever the call
    then does (accept, return an error, panic), the callback has been called
    exactly once by the time it ends. *)
Theorem onAck_called_once seq w :
  Ack seq w = Ack_locked seq (call_if_set (onAck (ab w)) w)
  ∧ calls (snd (Ack seq w)) =
      match onAck (ab w) with
      | Some c => c :: calls w
      | None => calls w
      end.
Proof.
  split; [reflexivity|]. unfold Ack. rewrite Ack_locked_calls.
  unfold call_if_set. destruct (onAck (ab w)); reflexivity.
Qed.

(** An ack that is refused: nothing is delivered yet in [full4], so the ack
    of 2 returns an error, and the callback was called. *)
Example onAck_called_on_error :
  fst (Ack 2 full4) = Done (Some (ErrNotDelivered 2 1))
  ∧ calls (snd (Ack 2 full4)) = [hookAck]
  ∧ ab (snd (Ack 2 full4)) = ab full4.
Proof. vm_compute. repeat split; reflexivity. Qed.

(** ** The stride of a buffer of capacity 1 *)

Lemma Add_locked_DivideByZero e dl w w' :
  Add_locked e dl w = (Panicked DivideByZero, w') → ackEvery (ab w) = 0.
Proof.
  unfold Add_locked.
  destruct (negb (Event_IsSet (isAvailable (ab w)))).
  - destruct (_ && _); discriminate.
  - destruct (heap w !! e); [|discriminate]. simpl.
    destruct (ackEvery (ab w) =? 0) eqn:E; bools; [intros _; exact E|].
    destruct (cap _ <=? _); discriminate.
Qed.

(** C9.  Add divides by ack_every.  A buffer built with BufferCapacity = 1
    has ack_every = 0, and the first Add that reaches the admission, which
    it does when its deadline has not passed at the first check of the
    loop, panics with a division by zero; a buffer of capacity 2 or more
    has ack_every >= 1, in every state it reaches, and no Add on it panics
    with a division by zero, whatever the timeout and the time that passes
    between the two readings of the clock. *)
Theorem ackEvery_zero_only_for_capacity_one :
  (∀ o h t e m timeout lag fuel,
     BufferCapacity o = 1 → h !! e = Some m → in_time timeout lag →
     ∃ b, NewAckBuffer o = Done b ∧ ackEvery b = 0
       ∧ fst (Add e timeout lag (S fuel) (mkWorld h b t [])) = Panicked DivideByZero)
  ∧ (∀ o n w,
       2 <= capacity_of o → reach o n w →
       1 <= ackEvery (ab w)
       ∧ ∀ e timeout lag fuel,
           fst (Add e timeout lag fuel w) ≠ Panicked DivideByZero).
Proof.
  split.
  - intros o h t e m timeout lag fuel Hc Hm Ht.
    assert (Hr : U64.in_range (BufferCapacity o))
      by (rewrite Hc; unfold U64.in_range; rewrite modulus_eq; lia).
    destruct (NewAckBuffer o) as [b| |] eqn:Hb;
      [|unfold NewAckBuffer in Hb; rewrite Hc in Hb; discriminate..].
    exists b. split; [reflexivity|].
    pose proof (Inv_new o b h t Hr Hb) as HI.
    destruct (NewAckBuffer_Done o b Hr Hb) as (Eb & _).
    assert (Hev : ackEvery b = 0).
    { rewrite Eb. simpl. unfold capacity_of. rewrite Hc. reflexivity. }
    assert (Hav : Event_IsSet (isAvailable b) = true) by (rewrite Eb; reflexivity).
    split; [exact Hev|].
    pose proof (at_loop_same_store timeout lag (mkWorld h b t [])) as Hs.
    pose proof (Inv_same_store _ _ Hs HI) as HI1. destruct Hs as [Hh Hs].
    simpl in Hh, Hs.
    rewrite Add_at_loop. simpl. rewrite Add_wait_room.
    + simpl. rewrite (Add_locked_room e _ _ m HI1);
        [|rewrite Hs; exact Hav|rewrite Hh; exact Hm].
      rewrite Hs, Hev. reflexivity.
    + rewrite Hs. exact Hav.
    + unfold at_loop. simpl. destruct (timeout =? 0) eqn:E0; bools; [exact I|].
      simpl. destruct Ht; lia.
  - intros o n w Hc Hw.
    destruct (reach_configured _ _ _ Hw) as (_ & Hev & _).
    assert (H1 : 1 <= ackEvery (ab w)).
    { rewrite Hev. apply Z.div_le_lower_bound; lia. }
    split; [exact H1|]. intros e timeout lag fuel HA.
    destruct (Add e timeout lag fuel w) as [r w'] eqn:E. simpl in HA. subst r.
    destruct (Add_cases _ _ _ _ _ _ _ E)
      as [(Hr & _)|[[[Hr|Hr] _]|(p & dl & w1 & Hr & [_ Hb] & HL)]]; try discriminate.
    injection Hr as <-. apply Add_locked_DivideByZero in HL. rewrite Hb in HL. lia.
Qed.

Lemma ackEvery_zero_only_for_capacity_one_witness :
  (∃ b, NewAckBuffer (opts 1) = Done b ∧ ackEvery b = 0
     ∧ fst (Add 1%nat 1000 100 (S 0) (mkWorld six b 0 [])) = Panicked DivideByZero)
  ∧ (1 <= ackEvery (ab five4)
     ∧ ∀ e timeout lag fuel,
         fst (Add e timeout lag fuel five4) ≠ Panicked DivideByZero).
Proof.
  split.
  - apply (proj1 ackEvery_zero_only_for_capacity_one (opts 1) six 0 1%nat (blank 10)).
    + reflexivity.
    + vm_compute. reflexivity.
    + right. lia.
  - apply (proj2 ackEvery_zero_only_for_capacity_one (opts 4) 5%nat).
    + vm_compute. discriminate.
    + exact reach_five4.
Defined.

(** The same on the buffer itself: capacity 1, one Add. *)
Example capacity_one_panics :
  NewAckBuffer (opts 1) = Done (ab (fresh 1))
  ∧ ackEvery (ab (fresh 1)) = 0
  ∧ fst (Add 1%nat 0 0 1%nat (fresh 1)) = Panicked DivideByZero
  ∧ nextSeqNum (ab (snd (Add 1%nat 0 0 1%nat (fresh 1)))) = 2
  ∧ buff (ab (snd (Add 1%nat 0 0 1%nat (fresh 1)))) = [None].
Proof. vm_compute. repeat split; reflexivity. Qed.

(** ** Acks that are refused *)

(** With a slot still undelivered or free behind the cursor, [Ack] returns
    an error exactly for the sequence numbers outside
    [[first_seq, first_seq + deliver_cursor)], and the store is as it was. *)
Lemma Ack_rejects_iff o n w seq :
  reach o n w → 1 + Z.of_nat n < U64.modulus → U64.in_range seq →
  nextIndexToDeliver (ab w) < cap (ab w) →
  (∃ err w', Ack seq w = (Done (Some err), w') ∧ same_store w w')
  ↔ ¬ (firstSeqNum (ab w) <= seq < firstSeqNum (ab w) + nextIndexToDeliver (ab w)).
Proof.
  intros Hw Hn Hseq Hcur. split.
  - intros (err & w' & HA & _) Hin.
    rewrite (Ack_valid o n w seq Hw Hn Hin) in HA. discriminate.
  - intros Hout.
    pose proof (reach_Inv _ _ _ Hw) as HI.
    destruct (quiescent_invariants_aux o n w Hw Hn) as (U1 & U2 & U3 & _).
    pose proof (reach_NoWrap _ _ _ Hw Hn) as (Hf & Hsum & Hm).
    pose proof (Ack_same_store_hook w) as Hs.
    pose proof (Inv_same_store _ _ Hs HI) as HI1.
    unfold Ack. rewrite (Ack_locked_unfold seq _ HI1).
    destruct Hs as [Hh Hb]. rewrite Hb.
    destruct (before_first seq (ab w) || after_next seq (ab w)).
    { eexists _, _. split; [reflexivity|]. split; assumption. }
    assert (Hidx : nextIndexToDeliver (ab w) <= U64.sub seq (firstSeqNum (ab w))).
    { unfold U64.sub, U64.wrap, U64.in_range in *. rewrite modulus_eq in *.
      destruct (Z_lt_le_dec seq (firstSeqNum (ab w))) as [Hlt|Hge].
      - rewrite <- (Z.mod_unique (seq - firstSeqNum (ab w)) 18446744073709551616 (-1)
                     (seq - firstSeqNum (ab w) + 18446744073709551616)); lia.
      - rewrite Z.mod_small by lia. lia. }
    apply Z.leb_le in Hidx. rewrite Hidx.
    apply Z.ltb_lt in Hcur. rewrite Hcur.
    eexists _, _. split; [reflexivity|]. split; assumption.
Qed.

(** An [Ack] that returns an error leaves the messages and the buffer as
    they were. *)
Lemma Ack_error_same_store seq w err w' :
  Ack seq w = (Done (Some err), w') → same_store w w'.
Proof.
  unfold Ack, Ack_locked. intros H.
  pose proof (Ack_same_store_hook w) as Hs.
  destruct (before_first seq _); [injection H as <- <-; exact Hs|].
  destruct (after_next seq _); [injection H as <- <-; exact Hs|].
  destruct (nextIndexToDeliver _ <=? _).
  - destruct (buff _ !! _); [injection H as <- <-; exact Hs|discriminate].
  - discriminate.
Qed.

(** With every slot delivered, an ack that the two guards let through and
    that is not below the cursor makes [Ack] read [buff[len(buff)]]. *)
Lemma Ack_panics_when_all_delivered o n w seq :
  reach o n w →
  nextIndexToDeliver (ab w) = cap (ab w) →
  before_first seq (ab w) = false → after_next seq (ab w) = false →
  nextIndexToDeliver (ab w) <= U64.sub seq (firstSeqNum (ab w)) →
  fst (Ack seq w) = Panicked IndexOutOfRange.
Proof.
  intros Hw Hfull G1 G2 Hidx.
  pose proof (reach_Inv _ _ _ Hw) as HI.
  pose proof (Ack_same_store_hook w) as Hs.
  pose proof (Inv_same_store _ _ Hs HI) as HI1.
  unfold Ack. rewrite (Ack_locked_unfold seq _ HI1).
  destruct Hs as [Hh Hb]. rewrite Hb, G1, G2. simpl.
  apply Z.leb_le in Hidx. rewrite Hidx.
  rewrite (proj2 (Z.ltb_ge _ _)) by lia. reflexivity.
Qed.

(** C1.  The claim: Ack returns an error for every sequence number outside
    [first_seq, first_seq + deliver_cursor), also when the buffer is full
    and every slot is delivered.  The code, on the buffer of capacity 4 with
    four messages admitted and all four delivered, a state the client
    reaches: deliver_cursor = next_free = C = 4 and first_seq = 1, so that
    15 (next_seq + 10) and 0 are outside the range; Ack returns no error for
    them, it panics on the read of [buff[4]]. *)
Theorem Ack_out_of_range_panics :
  reach (opts 4) 4 delivered4
  ∧ firstSeqNum (ab delivered4) = 1
  ∧ nextSeqNum (ab delivered4) = 5
  ∧ nextIndexToDeliver (ab delivered4) = 4
  ∧ nextIndexFree (ab delivered4) = 4
  ∧ cap (ab delivered4) = 4
  ∧ Ack 15 delivered4 = (Panicked IndexOutOfRange, call_if_set (Some hookAck) delivered4)
  ∧ Ack 0 delivered4 = (Panicked IndexOutOfRange, call_if_set (Some hookAck) delivered4)
  ∧ ¬ Ack_refuses_outside 15 delivered4.
Proof.
  assert (H15 : Ack 15 delivered4
                = (Panicked IndexOutOfRange, call_if_set (Some hookAck) delivered4))
    by (vm_compute; reflexivity).
  assert (Hf : firstSeqNum (ab delivered4) = 1) by (vm_compute; reflexivity).
  assert (Hc : nextIndexToDeliver (ab delivered4) = 4) by (vm_compute; reflexivity).
  split; [exact reach_delivered4|].
  split; [exact Hf|].
  split; [vm_compute; reflexivity|].
  split; [exact Hc|].
  split; [vm_compute; reflexivity|].
  split; [vm_compute; reflexivity|].
  split; [exact H15|].
  split; [vm_compute; reflexivity|].
  unfold Ack_refuses_outside. rewrite Hf, Hc, H15. intros H.
  destruct H as (err & w' & HA & _); [lia|discriminate].
Qed.

(** ** Add after Close *)

(** A full buffer that is not running refuses the message after one wait. *)
Lemma Add_loop_full_closed fuel e dl w :
  Event_IsSet (isAvailable (ab w)) = false → isRunning (ab w) = false →
  let r := Add_loop (S fuel) e dl w in
  fst r = Done false ∧ same_store w (snd r)
  ∧ clock (snd r) =
      match dl with
      | None => clock w + pollTick
      | Some d => Z.max (clock w) d
      end.
Proof.
  intros Ha Hr. simpl.
  pose proof (Add_wait_same_store dl w) as Hs.
  assert (Hc : clock (snd (Add_wait dl w)) =
               match dl with None => clock w + pollTick | Some d => Z.max (clock w) d end
               ∧ (fst (Add_wait dl w) = true → dl = None)).
  { unfold Add_wait, Event_WaitFor. rewrite Ha. simpl.
    destruct dl as [d|].
    - destruct (d <? clock w) eqn:E; bools; simpl.
      + split; [lia|discriminate].
      + split; [|discriminate]. unfold call_if_set.
        destruct (onBackPressure (ab w)); simpl; lia.
    - simpl. split; [unfold pollTick; lia|reflexivity]. }
  destruct (Add_wait dl w) as [locking w1]. simpl in Hs, Hc. destruct Hc as [Hc Hl].
  destruct locking; simpl.
  - rewrite Add_locked_full by (rewrite (proj2 Hs); exact Ha).
    rewrite (proj2 Hs), Hr, andb_false_r. simpl. auto.
  - auto.
Qed.

(** Close on the new buffer of capacity 4, then an Add: the message is
    admitted into slot 0. *)
Lemma Add_refused_after_Close_fails :
  isRunning (ab (Close (fresh 4))) = false
  ∧ fst (Add 1%nat 1000 100 1%nat (Close (fresh 4))) = Done true
  ∧ buff (ab (snd (Add 1%nat 1000 100 1%nat (Close (fresh 4)))))
    = [Some 1%nat; None; None; None]
  ∧ ¬ Add_refused_after_Close 1%nat 1000 100 1%nat (Close (fresh 4)).
Proof.
  split; [reflexivity|]. split; [vm_compute; reflexivity|].
  split; [vm_compute; reflexivity|].
  intros H. destruct (H eq_refl) as [H1 _]. vm_compute in H1. discriminate.
Qed.

(** C2, amended.  After Close (running cleared), an Add on a full buffer
    (available unset) returns false after its wait and stores nothing,
    whatever the timeout; an Add on a buffer with a free slot, whose
    deadline has not passed when the loop first checks it (as with timeout
    0, which sets none), admits the message and returns true as it does on
    a running buffer. *)
Theorem Add_after_Close w e timeout lag fuel :
  isRunning (ab w) = false →
  (Event_IsSet (isAvailable (ab w)) = false →
   fst (Add e timeout lag (S fuel) w) = Done false
   ∧ same_store w (snd (Add e timeout lag (S fuel) w)))
  ∧ (∀ o n m,
       reach o n w → 2 <= capacity_of o →
       Event_IsSet (isAvailable (ab w)) = true → heap w !! e = Some m →
       in_time timeout lag →
       Add e timeout lag (S fuel) w
       = (Done true, admitted e m (at_loop timeout lag w))).
Proof.
  intros Hr. split.
  - intros Ha. rewrite Add_at_loop.
    pose proof (at_loop_same_store timeout lag w) as Hs.
    destruct (Add_loop_full_closed fuel e
                (if timeout =? 0 then None else Some (clock w + timeout))
                (at_loop timeout lag w))
      as (H1 & H2 & _).
    + rewrite (proj2 Hs). exact Ha.
    + rewrite (proj2 Hs). exact Hr.
    + split; [exact H1|exact (same_store_trans _ _ _ Hs H2)].
  - intros o n m Hw Hc Ha Hm Ht.
    exact (Add_room o n w e m timeout lag fuel Hw Hc Ha Hm Ht).
Qed.

Lemma Add_after_Close_witness :
  (fst (Add 5%nat 1000 100 (S 0) (Close delivered4)) = Done false
   ∧ same_store (Close delivered4) (snd (Add 5%nat 1000 100 (S 0) (Close delivered4))))
  ∧ Add 1%nat 1000 100 (S 0) (Close (fresh 4))
    = (Done true, admitted 1%nat (blank 10) (at_loop 1000 100 (Close (fresh 4)))).
Proof.
  split.
  - apply (proj1 (Add_after_Close (Close delivered4) 5%nat 1000 100 0%nat eq_refl)).
    vm_compute. reflexivity.
  - apply (proj2 (Add_after_Close (Close (fresh 4)) 1%nat 1000 100 0%nat eq_refl)
             (opts 4) 0%nat (blank 10)).
    + apply reach_Close. apply reach_fresh. lia.
    + vm_compute. discriminate.
    + reflexivity.
    + vm_compute. reflexivity.
    + right. lia.
Defined.

(** ** Close and the admitters that wait *)

(** Close on the full buffer of capacity 4: the latch stays cleared. *)
Lemma Close_raises_available_fails :
  Event_IsSet (isAvailable (ab full4)) = false
  ∧ Event_IsSet (isAvailable (ab (Close full4))) = false
  ∧ ¬ Close_raises_available full4.
Proof.
  split; [vm_compute; reflexivity|]. split; [vm_compute; reflexivity|].
  unfold Close_raises_available. vm_compute. discriminate.
Qed.

(** C3, amended.  Close clears running and touches nothing else: the
    available latch is as it was.  An admitter that waits on a full buffer
    is not woken.  One that polls without a deadline and is in its wait
    while Close runs finds, when it takes the lock, the latch cleared and
    running cleared, and leaves its loop.  And the turn of a loop that
    starts after Close ends the call with false and nothing stored, at the
    end of its wait: the 500 ms poll when there is no deadline, the
    deadline otherwise. *)
Theorem Close_leaves_available w :
  (isRunning (ab (Close w)) = false
   ∧ isAvailable (ab (Close w)) = isAvailable (ab w)
   ∧ ab (Close w) = set_isRunning false (ab w)
   ∧ heap (Close w) = heap w ∧ clock (Close w) = clock w
   ∧ calls (Close w) = calls w)
  ∧ (Event_IsSet (isAvailable (ab w)) = false →
     (∀ e,
        fst (Add_wait None w) = true
        ∧ Add_locked e None (Close (snd (Add_wait None w)))
          = (Done Break, Close (snd (Add_wait None w))))
     ∧ ∀ e deadline fuel,
         let r := Add_loop (S fuel) e deadline (Close w) in
         fst r = Done false
         ∧ same_store (Close w) (snd r)
         ∧ clock (snd r) =
             match deadline with
             | None => clock w + pollTick
             | Some d => Z.max (clock w) d
             end).
Proof.
  split; [repeat split|].
  intros Ha. split.
  - intros e. unfold Add_wait, Event_WaitFor. rewrite Ha. simpl.
    split; [reflexivity|]. apply Add_locked_full. exact Ha.
  - intros e deadline fuel.
    exact (Add_loop_full_closed fuel e deadline (Close w) Ha eq_refl).
Qed.

(** The full buffer of capacity 4, closed: an Add without deadline returns
    false after one poll. *)
Lemma Close_leaves_available_witness :
  (∀ e,
     fst (Add_wait None full4) = true
     ∧ Add_locked e None (Close (snd (Add_wait None full4)))
       = (Done Break, Close (snd (Add_wait None full4))))
  ∧ ∀ e deadline fuel,
      let r := Add_loop (S fuel) e deadline (Close full4) in
      fst r = Done false
      ∧ same_store (Close full4) (snd r)
      ∧ clock (snd r) =
          match deadline with
          | None => clock full4 + pollTick
          | Some d => Z.max (clock full4) d
          end.
Proof.
  refine (proj2 (Close_leaves_available full4) _).
  vm_compute. reflexivity.
Defined.

Example Close_then_poll :
  fst (Add_loop 1 5%nat None (Close full4)) = Done false
  ∧ clock (snd (Add_loop 1 5%nat None (Close full4))) = clock full4 + 500000000
  ∧ buff (ab (snd (Add_loop 1 5%nat None (Close full4)))) = buff (ab full4).
Proof. vm_compute. repeat split; reflexivity. Qed.

(** ** The callback of backpressure *)

(** A full buffer and no deadline: the loop polls and calls nothing. *)
Lemma Add_loop_untimed_full e fuel : ∀ w,
  Event_IsSet (isAvailable (ab w)) = false →
  let r := Add_loop fuel e None w in
  calls (snd r) = calls w ∧ same_store w (snd r)
  ∧ fst r = (if isRunning (ab w) then Blocked
             else match fuel with O => Blocked | S _ => Done false end)
  ∧ clock (snd r) =
      clock w + pollTick * Z.of_nat (if isRunning (ab w) then fuel else Nat.min fuel 1).
Proof.
  induction fuel as [|fuel IH]; intros w Ha; simpl.
  - repeat split; try reflexivity.
    + destruct (isRunning (ab w)); reflexivity.
    + destruct (isRunning (ab w)); simpl; lia.
  - unfold Add_wait, Event_WaitFor. rewrite Ha. simpl.
    rewrite Add_locked_full by exact Ha. simpl.
    destruct (isRunning (ab w)) eqn:Hr; simpl.
    + specialize (IH (set_clock (clock w + Z.max 0 pollTick) w) Ha).
      simpl in IH. rewrite Hr in IH. destruct IH as (I1 & I2 & I3 & I4).
      repeat split; try assumption; try apply I2.
      rewrite I4. unfold pollTick. lia.
    + repeat split. unfold pollTick. lia.
Qed.

(** What Add does with the callback on a full buffer (available unset):
    with a deadline that has not passed at the first check of the loop it
    calls on_backpressure exactly once, waits and returns false; with
    timeout 0 (no deadline) it never calls it, however many times it polls;
    with a deadline that has passed at the first check, as when the timeout
    is negative, it returns false at once and calls nothing. *)
Lemma backpressure_only_with_deadline w e timeout lag c :
  Event_IsSet (isAvailable (ab w)) = false →
  onBackPressure (ab w) = Some c →
  (timeout ≠ 0 → lag <= timeout → ∀ fuel,
     fst (Add e timeout lag (S fuel) w) = Done false
     ∧ calls (snd (Add e timeout lag (S fuel) w)) = c :: calls w)
  ∧ (timeout = 0 → ∀ fuel, calls (snd (Add e timeout lag fuel w)) = calls w)
  ∧ (timeout ≠ 0 → timeout < lag → ∀ fuel,
       fst (Add e timeout lag (S fuel) w) = Done false
       ∧ calls (snd (Add e timeout lag (S fuel) w)) = calls w).
Proof.
  intros Ha Hc. split; [|split].
  - intros Ht Hl fuel. unfold Add.
    rewrite (proj2 (Z.eqb_neq timeout 0)) by lia. simpl.
    unfold Add_wait, Event_WaitFor. simpl. rewrite Ha. simpl.
    rewrite (proj2 (Z.ltb_ge _ _)) by lia. simpl.
    rewrite Hc. simpl. repeat split.
  - intros -> fuel. unfold Add. simpl.
    exact (proj1 (Add_loop_untimed_full e fuel w Ha)).
  - intros Ht Hl fuel. unfold Add.
    rewrite (proj2 (Z.eqb_neq timeout 0)) by lia. simpl.
    unfold Add_wait. simpl. rewrite (proj2 (Z.ltb_lt _ _)) by lia. simpl. auto.
Qed.

(** The branch with a deadline, on the full buffer of capacity 4: the
    callback is called once, the call returns false and stores nothing. *)
Example backpressure_with_deadline :
  fst (Add 5%nat 1000 100 1%nat full4) = Done false
  ∧ calls (snd (Add 5%nat 1000 100 1%nat full4)) = hookBP :: calls full4
  ∧ buff (ab (snd (Add 5%nat 1000 100 1%nat full4))) = buff (ab full4).
Proof. vm_compute. repeat split; reflexivity. Qed.

(** C8.  The claim: an Add that blocks on a full buffer calls
    on_backpressure, also when its timeout is 0.  The code, on the full
    buffer of capacity 4 with the callback configured and timeout 0: after
    ten polls, five seconds, the call still waits and the callback has not
    been called; the claim fails there. *)
Theorem backpressure_missed_without_deadline :
  reach (opts 4) 4 full4
  ∧ Event_IsSet (isAvailable (ab full4)) = false
  ∧ onBackPressure (ab full4) = Some hookBP
  ∧ fst (Add 5%nat 0 0 10%nat full4) = Blocked
  ∧ clock (snd (Add 5%nat 0 0 10%nat full4)) = clock full4 + 5000000000
  ∧ calls (snd (Add 5%nat 0 0 10%nat full4)) = calls full4
  ∧ ¬ backpressure_reported 5%nat 0 0 10%nat full4.
Proof.
  split; [exact reach_full4|].
  split; [vm_compute; reflexivity|]. split; [vm_compute; reflexivity|].
  split; [vm_compute; reflexivity|]. split; [vm_compute; reflexivity|].
  split; [vm_compute; reflexivity|].
  intros H. specialize (H eq_refl hookBP eq_refl). vm_compute in H. discriminate.
Qed.

(** * Further properties of the buffer *)

(** The bound on the admissions, for the worked states. *)
Lemma few_admissions n : (n < 1000)%nat → 1 + Z.of_nat n < U64.modulus.
Proof. intros H. rewrite modulus_eq. lia. Qed.

(** ** GetUnAcked *)

(** X1.  In every state the client reaches, GetUnAcked does not panic and
    returns next_free messages, at most the capacity, none of them nil,
    numbered first_seq, first_seq + 1, ... in this order. *)
Theorem GetUnAcked_lists_backlog o n w :
  reach o n w → 1 + Z.of_nat n < U64.modulus →
  ∃ l, GetUnAcked w = Done l
    ∧ Z.of_nat (length l) = nextIndexFree (ab w)
    ∧ Z.of_nat (length l) <= capacity_of o
    ∧ ∀ i : nat, (i < length l)%nat →
        ∃ p m, l !! i = Some (Some p) ∧ heap w !! p = Some m
          ∧ SeqNum m = firstSeqNum (ab w) + Z.of_nat i.
Proof.
  intros Hw Hn.
  destruct (quiescent_invariants_aux o n w Hw Hn) as (U1 & U2 & U3 & U4 & _).
  unfold GetUnAcked. rewrite (proj2 (Z.ltb_ge _ _)) by lia.
  eexists. split; [reflexivity|].
  assert (Hlen : Z.of_nat (length (take (Z.to_nat (nextIndexFree (ab w))) (buff (ab w))))
                 = nextIndexFree (ab w)).
  { rewrite length_take. unfold cap in U1. lia. }
  split; [exact Hlen|]. split; [lia|].
  intros i Hi. destruct (U4 i) as (p & m & Hp & Hm & Hs); [lia|].
  exists p, m. split; [|auto]. rewrite lookup_take_lt by lia. exact Hp.
Qed.

Lemma GetUnAcked_lists_backlog_witness :
  ∃ l, GetUnAcked five4 = Done l
    ∧ Z.of_nat (length l) = nextIndexFree (ab five4)
    ∧ Z.of_nat (length l) <= capacity_of (opts 4)
    ∧ ∀ i : nat, (i < length l)%nat →
        ∃ p m, l !! i = Some (Some p) ∧ heap five4 !! p = Some m
          ∧ SeqNum m = firstSeqNum (ab five4) + Z.of_nat i.
Proof.
  refine (GetUnAcked_lists_backlog (opts 4) 5 five4 reach_five4 (few_admissions 5 _)).
  lia.
Defined.

(** ** GetNextToDeliver *)

(** X2.  In every state the client reaches, GetNextToDeliver does not
    panic.  With nothing left to deliver it waits out its timeout and
    returns nil, the buffer untouched; otherwise it returns at once the
    message under the cursor, whose sequence number is first_seq + cursor,
    and moves the cursor by one, the slots and the messages untouched. *)
Theorem GetNextToDeliver_in_order o n w timeout :
  reach o n w → 1 + Z.of_nat n < U64.modulus →
  (nextIndexToDeliver (ab w) = nextIndexFree (ab w) →
   GetNextToDeliver timeout w
   = (Done None, set_clock (clock w + Z.max 0 timeout) w))
  ∧ (nextIndexToDeliver (ab w) < nextIndexFree (ab w) →
     ∃ p m w',
       GetNextToDeliver timeout w = (Done (Some p), w')
       ∧ buff (ab w) !! Z.to_nat (nextIndexToDeliver (ab w)) = Some (Some p)
       ∧ heap w !! p = Some m
       ∧ SeqNum m = firstSeqNum (ab w) + nextIndexToDeliver (ab w)
       ∧ nextIndexToDeliver (ab w') = nextIndexToDeliver (ab w) + 1
       ∧ buff (ab w') = buff (ab w)
       ∧ nextIndexFree (ab w') = nextIndexFree (ab w)
       ∧ heap w' = heap w ∧ clock w' = clock w).
Proof.
  intros Hw Hn. pose proof (reach_Inv _ _ _ Hw) as HI.
  destruct (quiescent_invariants_aux o n w Hw Hn) as (U1 & U2 & U3 & U4 & _ & _ & U7).
  split.
  - intros Heq. unfold GetNextToDeliver, Event_WaitFor.
    destruct (Event_IsSet (isReadyToDeliver (ab w))) eqn:Er.
    + pose proof (proj1 U7 eq_refl). lia.
    + reflexivity.
  - intros Hlt.
    destruct (U4 (Z.to_nat (nextIndexToDeliver (ab w)))) as (p & m & Hp & Hm & Hs);
      [lia|].
    assert (Er : Event_IsSet (isReadyToDeliver (ab w)) = true) by (apply U7; exact Hlt).
    destruct (GetNextToDeliver_unfold timeout w) as (w1 & _ & _ & [[_ E]|[E [-> _]]]);
      [congruence|].
    destruct (GetNextToDeliver_locked w) as [r w'] eqn:EL.
    assert (Hr : ∃ x, r = Done x).
    { unfold GetNextToDeliver_locked in EL. rewrite Er, Hp in EL. simpl in EL.
      injection EL as <- _. eauto. }
    destruct Hr as [x ->].
    destruct (GetNextToDeliver_locked_Done w x w' HI EL)
      as [(_ & _ & Hf)|(_ & Hx & ->)]; [congruence|].
    assert (x = Some p) as -> by congruence.
    exists p, m. eexists. split; [exact E|].
    split; [exact Hp|]. split; [exact Hm|]. split; [lia|].
    simpl. auto.
Qed.

(** Both halves on capacity 4: with the four messages delivered the call
    waits and returns nil; with the four admitted and none delivered it
    returns the first of them. *)
Lemma GetNextToDeliver_in_order_witness :
  GetNextToDeliver 1000 delivered4
  = (Done None, set_clock (clock delivered4 + Z.max 0 1000) delivered4)
  ∧ ∃ p m w',
      GetNextToDeliver 1000 full4 = (Done (Some p), w')
      ∧ buff (ab full4) !! Z.to_nat (nextIndexToDeliver (ab full4)) = Some (Some p)
      ∧ heap full4 !! p = Some m
      ∧ SeqNum m = firstSeqNum (ab full4) + nextIndexToDeliver (ab full4)
      ∧ nextIndexToDeliver (ab w') = nextIndexToDeliver (ab full4) + 1
      ∧ buff (ab w') = buff (ab full4)
      ∧ nextIndexFree (ab w') = nextIndexFree (ab full4)
      ∧ heap w' = heap full4 ∧ clock w' = clock full4.
Proof.
  assert (Hn : 1 + Z.of_nat 4 < U64.modulus) by (apply few_admissions; lia).
  assert (He : nextIndexToDeliver (ab delivered4) = nextIndexFree (ab delivered4))
    by (vm_compute; reflexivity).
  assert (Hl : nextIndexToDeliver (ab full4) < nextIndexFree (ab full4))
    by (vm_compute; reflexivity).
  split.
  - exact (proj1 (GetNextToDeliver_in_order (opts 4) 4 delivered4 1000
                    reach_delivered4 Hn) He).
  - exact (proj2 (GetNextToDeliver_in_order (opts 4) 4 full4 1000
                    reach_full4 Hn) Hl).
Defined.

(** ** Delivery of the whole backlog *)

(** [k] deliveries from a cursor with at least [k] messages behind it. *)
Lemma deliver_n_run timeout k : ∀ w,
  Inv w → nextIndexToDeliver (ab w) + Z.of_nat k <= nextIndexFree (ab w) →
  ∃ w', deliver_n k timeout w
        = (Done (take k (drop (Z.to_nat (nextIndexToDeliver (ab w))) (buff (ab w)))), w')
    ∧ Inv w'
    ∧ nextIndexToDeliver (ab w') = nextIndexToDeliver (ab w) + Z.of_nat k
    ∧ buff (ab w') = buff (ab w)
    ∧ nextIndexFree (ab w') = nextIndexFree (ab w)
    ∧ firstSeqNum (ab w') = firstSeqNum (ab w)
    ∧ heap w' = heap w ∧ clock w' = clock w.
Proof.
  induction k as [|k IH]; intros w HI Hk; simpl.
  - exists w. rewrite take_0. split; [reflexivity|]. split; [exact HI|].
    split; [lia|]. auto.
  - assert (Er : Event_IsSet (isReadyToDeliver (ab w)) = true)
      by (apply (inv_ready _ HI); lia).
    destruct (GetNextToDeliver_unfold timeout w) as (w1 & _ & _ & [[_ E]|[E [-> _]]]);
      [congruence|].
    rewrite E.
    destruct (lookup_lt_is_Some_2 (buff (ab w)) (Z.to_nat (nextIndexToDeliver (ab w))))
      as [x Hx].
    { pose proof (inv_free _ HI). pose proof (inv_cursor _ HI). unfold cap in *. lia. }
    destruct (GetNextToDeliver_locked w) as [r w1] eqn:EL.
    assert (r = Done x) as ->.
    { unfold GetNextToDeliver_locked in EL. rewrite Er, Hx in EL. simpl in EL.
      injection EL as <- _. reflexivity. }
    pose proof (Inv_GetNextToDeliver_locked w x w1 HI EL) as HI1.
    destruct (GetNextToDeliver_locked_Done w x w1 HI EL)
      as [(_ & _ & Hf)|(_ & _ & Hw1)]; [congruence|].
    assert (Hc1 : nextIndexToDeliver (ab w1) = nextIndexToDeliver (ab w) + 1)
      by (rewrite Hw1; reflexivity).
    assert (Hb1 : buff (ab w1) = buff (ab w)) by (rewrite Hw1; reflexivity).
    assert (Hn1 : nextIndexFree (ab w1) = nextIndexFree (ab w)) by (rewrite Hw1; reflexivity).
    assert (Hf1 : firstSeqNum (ab w1) = firstSeqNum (ab w)) by (rewrite Hw1; reflexivity).
    assert (Hh1 : heap w1 = heap w) by (rewrite Hw1; reflexivity).
    assert (Ht1 : clock w1 = clock w) by (rewrite Hw1; reflexivity).
    destruct (IH w1 HI1) as (w2 & E2 & HI2 & Hc2 & Hb2 & Hn2 & Hf2 & Hh2 & Ht2); [lia|].
    rewrite E2. exists w2. split.
    + f_equal. f_equal. rewrite (drop_S _ _ _ Hx). simpl. f_equal.
      rewrite Hb1, Hc1. f_equal. f_equal.
      pose proof (inv_cursor _ HI). lia.
    + split; [exact HI2|]. split; [lia|]. repeat split; congruence.
Qed.

(** X3.  After ResetDelivery, next_free calls of GetNextToDeliver return
    exactly the messages GetUnAcked lists, in its order, without waiting;
    the cursor then stands at next_free, the ready latch is cleared, and the
    buffer still holds every message. *)
Theorem ResetDelivery_replays_backlog o n w timeout :
  reach o n w →
  ∃ l w',
    GetUnAcked w = Done l
    ∧ deliver_n (Z.to_nat (nextIndexFree (ab w))) timeout (ResetDelivery w)
      = (Done l, w')
    ∧ nextIndexToDeliver (ab w') = nextIndexFree (ab w)
    ∧ Event_IsSet (isReadyToDeliver (ab w')) = false
    ∧ buff (ab w') = buff (ab w)
    ∧ nextIndexFree (ab w') = nextIndexFree (ab w)
    ∧ heap w' = heap w ∧ clock w' = clock w.
Proof.
  intros Hw. pose proof (reach_Inv _ _ _ Hw) as HI.
  pose proof (Inv_ResetDelivery w HI) as HIr.
  pose proof (inv_cursor _ HI) as Hc. pose proof (inv_free _ HI) as Hf.
  assert (Hr : nextIndexToDeliver (ab (ResetDelivery w)) = 0
               ∧ buff (ab (ResetDelivery w)) = buff (ab w)
               ∧ nextIndexFree (ab (ResetDelivery w)) = nextIndexFree (ab w)
               ∧ heap (ResetDelivery w) = heap w
               ∧ clock (ResetDelivery w) = clock w).
  { unfold ResetDelivery. simpl. destruct (nextIndexFree (ab w) <=? 0); auto. }
  destruct Hr as (R1 & R2 & R3 & R4 & R5).
  destruct (deliver_n_run timeout (Z.to_nat (nextIndexFree (ab w))) (ResetDelivery w) HIr)
    as (w' & E & HI' & C1 & C2 & C3 & C4 & C5 & C6); [lia|].
  rewrite R1, R2 in E. change (Z.to_nat 0) with 0%nat in E. rewrite drop_0 in E.
  exists (take (Z.to_nat (nextIndexFree (ab w))) (buff (ab w))), w'.
  split.
  { unfold GetUnAcked. rewrite (proj2 (Z.ltb_ge _ _)) by lia. reflexivity. }
  split; [exact E|].
  assert (Hcur : nextIndexToDeliver (ab w') = nextIndexFree (ab w)) by lia.
  split; [exact Hcur|]. split.
  { destruct (Event_IsSet (isReadyToDeliver (ab w'))) eqn:Er; [|reflexivity].
    apply (inv_ready _ HI') in Er. lia. }
  repeat split; congruence.
Qed.

Lemma ResetDelivery_replays_backlog_witness :
  ∃ l w',
    GetUnAcked five4 = Done l
    ∧ deliver_n (Z.to_nat (nextIndexFree (ab five4))) 1000 (ResetDelivery five4)
      = (Done l, w')
    ∧ nextIndexToDeliver (ab w') = nextIndexFree (ab five4)
    ∧ Event_IsSet (isReadyToDeliver (ab w')) = false
    ∧ buff (ab w') = buff (ab five4)
    ∧ nextIndexFree (ab w') = nextIndexFree (ab five4)
    ∧ heap w' = heap five4 ∧ clock w' = clock five4.
Proof. exact (ResetDelivery_replays_backlog (opts 4) 5 five4 1000 reach_five4). Defined.

(** The replay on the buffer that holds the messages numbered 3, 4, 5. *)
Example replay_of_five4 :
  fst (deliver_n 3 1000 (ResetDelivery five4))
  = Done [Some 3%nat; Some 4%nat; Some 5%nat]
  ∧ seqs_of five4 [Some 3%nat; Some 4%nat; Some 5%nat] = [Some 3; Some 4; Some 5].
Proof. vm_compute. split; reflexivity. Qed.

(** ** Add: what it never does *)

(** X4.  On a buffer of capacity 2 or more, an Add of a message that
    exists never panics, in any state the client reaches, whatever the
    timeout and the time that passes between the two readings of the
    clock: not on the division, not on the slot it writes. *)
Theorem Add_never_panics o n w e timeout lag fuel :
  reach o n w → 2 <= capacity_of o → is_Some (heap w !! e) →
  ∀ p, fst (Add e timeout lag fuel w) ≠ Panicked p.
Proof.
  intros Hw Hc [m Hm] p HA.
  pose proof (reach_Inv _ _ _ Hw) as HI.
  destruct (reach_configured _ _ _ Hw) as (_ & Hev & _).
  assert (H1 : 1 <= ackEvery (ab w)).
  { rewrite Hev. apply Z.div_le_lower_bound; lia. }
  destruct (Add e timeout lag fuel w) as [r w'] eqn:E. simpl in HA. subst r.
  destruct (Add_cases _ _ _ _ _ _ _ E)
    as [(Hr & _)|[[[Hr|Hr] _]|(q & dl & w1 & Hr & Hs & HL)]]; try discriminate.
  pose proof (Inv_same_store _ _ Hs HI) as HI1. destruct Hs as [Hh Hb].
  destruct (Event_IsSet (isAvailable (ab w1))) eqn:Ea.
  - rewrite (Add_locked_room e _ w1 m HI1 Ea) in HL by (rewrite Hh; exact Hm).
    rewrite Hb in HL.
    destruct (ackEvery (ab w) =? 0) eqn:Ez; bools; [lia|discriminate].
  - rewrite Add_locked_full in HL by exact Ea. discriminate.
Qed.

(** On capacity 4 with room: the sixth message goes through the division
    and the write of its slot, and is admitted. *)
Lemma Add_never_panics_witness :
  fst (Add 6%nat 1000 100 1%nat five4) = Done true
  ∧ fst (Add 6%nat 1000 100 1%nat five4) ≠ Panicked DivideByZero
  ∧ fst (Add 6%nat 1000 100 1%nat five4) ≠ Panicked IndexOutOfRange.
Proof.
  assert (Hc : 2 <= capacity_of (opts 4)) by (vm_compute; discriminate).
  assert (Hm : is_Some (heap five4 !! 6%nat))
    by (exists (blank 60); vm_compute; reflexivity).
  split; [vm_compute; reflexivity|]. split.
  - exact (Add_never_panics (opts 4) 5 five4 6%nat 1000 100 1%nat reach_five4 Hc Hm
             DivideByZero).
  - exact (Add_never_panics (opts 4) 5 five4 6%nat 1000 100 1%nat reach_five4 Hc Hm
             IndexOutOfRange).
Defined.

(** An Add of nil on a buffer with room does panic, before it changes
    anything. *)
Example Add_nil_panics :
  fst (Add 7%nat 1000 100 1%nat (fresh 4)) = Panicked NilDereference
  ∧ same_store (fresh 4) (snd (Add 7%nat 1000 100 1%nat (fresh 4))).
Proof. vm_compute. repeat split; reflexivity. Qed.

(** X5.  A negative timeout is a deadline in the past: Add returns false at
    once, at its second reading of the clock, and changes nothing, also when
    the buffer has room. *)
Theorem Add_negative_timeout w e timeout lag fuel :
  timeout < 0 → 0 <= lag →
  Add e timeout lag (S fuel) w = (Done false, set_clock (clock w + lag) w).
Proof.
  intros Ht Hl. unfold Add. rewrite (proj2 (Z.eqb_neq timeout 0)) by lia. simpl.
  unfold Add_wait. simpl. rewrite (proj2 (Z.ltb_lt _ _)) by lia. reflexivity.
Qed.

Lemma Add_negative_timeout_witness :
  Add 1%nat (-1) 100 (S 0) (fresh 4)
  = (Done false, set_clock (clock (fresh 4) + 100) (fresh 4)).
Proof. refine (Add_negative_timeout (fresh 4) 1%nat (-1) 100 0%nat _ _); lia. Defined.

(** X6.  On a full buffer (available unset) Add never admits: whatever the
    timeout and however long it polls, the call ends with false or is still
    waiting, and the messages and the buffer are as they were. *)
Theorem Add_full_never_admits w e timeout lag fuel :
  Event_IsSet (isAvailable (ab w)) = false →
  (fst (Add e timeout lag fuel w) = Done false ∨ fst (Add e timeout lag fuel w) = Blocked)
  ∧ heap (snd (Add e timeout lag fuel w)) = heap w
  ∧ ab (snd (Add e timeout lag fuel w)) = ab w.
Proof.
  intros Ha. destruct (Add e timeout lag fuel w) as [r w'] eqn:E. simpl.
  destruct (Add_cases _ _ _ _ _ _ _ E)
    as [(Hr & dl & w1 & [_ Hb] & HL)|[[Hr [Hh Hb]]|(q & dl & w1 & Hr & [_ Hb] & HL)]].
  - rewrite Add_locked_full in HL by (rewrite Hb; exact Ha).
    destruct (_ && _) in HL; discriminate.
  - auto.
  - rewrite Add_locked_full in HL by (rewrite Hb; exact Ha). discriminate.
Qed.

Lemma Add_full_never_admits_witness :
  (fst (Add 5%nat 0 0 10%nat full4) = Done false ∨ fst (Add 5%nat 0 0 10%nat full4) = Blocked)
  ∧ heap (snd (Add 5%nat 0 0 10%nat full4)) = heap full4
  ∧ ab (snd (Add 5%nat 0 0 10%nat full4)) = ab full4.
Proof.
  refine (Add_full_never_admits full4 5%nat 0 0 10%nat _). vm_compute. reflexivity.
Defined.

(** X7.  How long Add waits on a full buffer.  Without a timeout and while
    the buffer runs, the call is still waiting after any number of polls,
    each of which lasts 500 ms at least; with a timeout, it returns false in
    its first turn, and not before its deadline, whatever time passes
    between the two readings of the clock. *)
Theorem Add_full_waits w e lag :
  Event_IsSet (isAvailable (ab w)) = false →
  (isRunning (ab w) = true → ∀ fuel,
     fst (Add e 0 lag fuel w) = Blocked
     ∧ clock w + pollTick * Z.of_nat fuel <= clock (snd (Add e 0 lag fuel w)))
  ∧ (∀ timeout fuel, timeout ≠ 0 →
       fst (Add e timeout lag (S fuel) w) = Done false
       ∧ clock w + timeout <= clock (snd (Add e timeout lag (S fuel) w))).
Proof.
  intros Ha. split.
  - intros Hr fuel. unfold Add. simpl.
    destruct (Add_loop_untimed_full e fuel w Ha) as (_ & _ & H3 & H4).
    rewrite Hr in H3, H4. split; [exact H3|lia].
  - intros timeout fuel Ht. unfold Add.
    rewrite (proj2 (Z.eqb_neq timeout 0)) by lia. simpl.
    unfold Add_wait, Event_WaitFor. simpl. rewrite Ha. simpl.
    destruct (clock w + timeout <? clock w + lag) eqn:E; bools; simpl.
    + split; [reflexivity|lia].
    + unfold call_if_set. destruct (onBackPressure (ab w)); simpl; split;
        try reflexivity; lia.
Qed.

(** The full buffer of capacity 4: ten polls without a timeout; a timeout
    of 1000 ns read again after 100 ns; a timeout of 1 ns read again after
    150 ns, its deadline passed. *)
Lemma Add_full_waits_witness :
  (fst (Add 5%nat 0 0 10%nat full4) = Blocked
   ∧ clock full4 + pollTick * Z.of_nat 10%nat <= clock (snd (Add 5%nat 0 0 10%nat full4)))
  ∧ (fst (Add 5%nat 1000 100 (S 0) full4) = Done false
     ∧ clock full4 + 1000 <= clock (snd (Add 5%nat 1000 100 (S 0) full4)))
  ∧ (fst (Add 5%nat 1 150 (S 0) full4) = Done false
     ∧ clock full4 + 1 <= clock (snd (Add 5%nat 1 150 (S 0) full4))).
Proof.
  assert (Ha : Event_IsSet (isAvailable (ab full4)) = false) by (vm_compute; reflexivity).
  assert (Hr : isRunning (ab full4) = true) by (vm_compute; reflexivity).
  assert (H1 : 1000 ≠ 0) by lia.
  assert (H2 : 1 ≠ 0) by lia.
  split; [|split].
  - exact (proj1 (Add_full_waits full4 5%nat 0 Ha) Hr 10%nat).
  - exact (proj2 (Add_full_waits full4 5%nat 100 Ha) 1000 0%nat H1).
  - exact (proj2 (Add_full_waits full4 5%nat 150 Ha) 1 0%nat H2).
Defined.

(** X8.  An admission appends.  In a state the client reaches, an Add that
    returns true has written its message into the slot next_free, which was
    empty, and moved next_free by one; first_seq and the cursor are as they
    were, ready is set, available is left set iff a slot is still free, and
    every message held before is in the same slot, unchanged. *)
Theorem Add_appends o n w e timeout lag fuel w' :
  reach o n w → Some e ∉ buff (ab w) →
  Add e timeout lag fuel w = (Done true, w') →
  buff (ab w) !! Z.to_nat (nextIndexFree (ab w)) = Some None
  ∧ buff (ab w') = <[Z.to_nat (nextIndexFree (ab w)) := Some e]> (buff (ab w))
  ∧ nextIndexFree (ab w') = nextIndexFree (ab w) + 1
  ∧ firstSeqNum (ab w') = firstSeqNum (ab w)
  ∧ nextIndexToDeliver (ab w') = nextIndexToDeliver (ab w)
  ∧ Event_IsSet (isReadyToDeliver (ab w')) = true
  ∧ (Event_IsSet (isAvailable (ab w')) = true ↔
     nextIndexFree (ab w) + 1 < cap (ab w))
  ∧ (∀ (i : nat) p, Z.of_nat i < nextIndexFree (ab w) →
       buff (ab w) !! i = Some (Some p) →
       buff (ab w') !! i = Some (Some p) ∧ heap w' !! p = heap w !! p).
Proof.
  intros Hw Hfresh HA. pose proof (reach_Inv _ _ _ Hw) as HI.
  destruct (Add_Done_true _ _ _ _ _ _ HI HA) as (w1 & m & [Hh Hb] & Hm & Ha & Hz & ->).
  pose proof (inv_cursor _ HI) as Hc.
  pose proof (proj1 (inv_available _ HI) Ha) as Hroom.
  unfold admitted. simpl. rewrite Hb, Hh.
  split; [apply (inv_empty _ HI); lia|].
  split; [reflexivity|]. split; [reflexivity|]. split; [reflexivity|].
  split; [reflexivity|]. split; [reflexivity|].
  split; [unfold Event_IsSet; apply bool_decide_eq_true|].
  intros i p Hi Hp. split.
  - rewrite list_lookup_insert_ne by lia. exact Hp.
  - apply lookup_insert_ne. intros ->. apply Hfresh.
    eapply list_elem_of_lookup_2. exact Hp.
Qed.

Lemma Add_appends_witness :
  buff (ab (fresh 4)) !! Z.to_nat (nextIndexFree (ab (fresh 4))) = Some None
  ∧ buff (ab (snd (Add 1%nat 1000 100 1%nat (fresh 4))))
    = <[Z.to_nat (nextIndexFree (ab (fresh 4))) := Some 1%nat]> (buff (ab (fresh 4)))
  ∧ nextIndexFree (ab (snd (Add 1%nat 1000 100 1%nat (fresh 4))))
    = nextIndexFree (ab (fresh 4)) + 1
  ∧ firstSeqNum (ab (snd (Add 1%nat 1000 100 1%nat (fresh 4)))) = firstSeqNum (ab (fresh 4))
  ∧ nextIndexToDeliver (ab (snd (Add 1%nat 1000 100 1%nat (fresh 4))))
    = nextIndexToDeliver (ab (fresh 4))
  ∧ Event_IsSet (isReadyToDeliver (ab (snd (Add 1%nat 1000 100 1%nat (fresh 4))))) = true
  ∧ (Event_IsSet (isAvailable (ab (snd (Add 1%nat 1000 100 1%nat (fresh 4))))) = true ↔
     nextIndexFree (ab (fresh 4)) + 1 < cap (ab (fresh 4)))
  ∧ (∀ (i : nat) p, Z.of_nat i < nextIndexFree (ab (fresh 4)) →
       buff (ab (fresh 4)) !! i = Some (Some p) →
       buff (ab (snd (Add 1%nat 1000 100 1%nat (fresh 4)))) !! i = Some (Some p)
       ∧ heap (snd (Add 1%nat 1000 100 1%nat (fresh 4))) !! p = heap (fresh 4) !! p).
Proof.
  refine (Add_appends (opts 4) 0 (fresh 4) 1%nat 1000 100 1%nat _ _ _ _).
  - apply reach_fresh. lia.
  - vm_compute. intros H. repeat (apply elem_of_cons in H as [H|H]; [discriminate|]).
    apply elem_of_nil in H. exact H.
  - vm_compute. reflexivity.
Defined.

(** The precondition matters: a message the buffer holds, handed to Add
    again, is renumbered in the slot that holds it already. *)
Example Add_of_held_message_renumbers :
  seqs_of (snd (Add 1%nat 1000 100 1%nat (snd (Add 1%nat 1000 100 1%nat (fresh 4)))))
    [Some 1%nat; Some 1%nat]
  = [Some 2; Some 2]
  ∧ buff (ab (snd (Add 1%nat 1000 100 1%nat (snd (Add 1%nat 1000 100 1%nat (fresh 4))))))
    = [Some 1%nat; Some 1%nat; None; None].
Proof. vm_compute. split; reflexivity. Qed.

(** ** Ack and the calls around it *)

(** X9.  An ack is cumulative.  After a valid Ack(seq), GetUnAcked lists
    what it listed before without its first seq - first_seq + 1 messages:
    the messages numbered up to seq are gone, the others are kept in their
    order. *)
Theorem Ack_drops_prefix o n w seq :
  reach o n w → 1 + Z.of_nat n < U64.modulus →
  firstSeqNum (ab w) <= seq < firstSeqNum (ab w) + nextIndexToDeliver (ab w) →
  ∃ w' l,
    Ack seq w = (Done None, w')
    ∧ GetUnAcked w = Done l
    ∧ GetUnAcked w' = Done (drop (Z.to_nat (seq - firstSeqNum (ab w) + 1)) l).
Proof.
  intros Hw Hn Hseq.
  destruct (valid_seq_passes o n w seq Hw Hn Hseq) as (_ & _ & Hsub).
  destruct (quiescent_invariants_aux o n w Hw Hn) as (U1 & U2 & U3 & _).
  destruct (Ack_same_store_hook w) as [Hh Hb].
  eexists _, _. split; [exact (Ack_valid o n w seq Hw Hn Hseq)|].
  unfold GetUnAcked. rewrite (proj2 (Z.ltb_ge _ _)) by lia.
  split; [reflexivity|].
  unfold acked, cap in *. rewrite Hb. simpl. rewrite Hsub, compact_length.
  rewrite (proj2 (Z.ltb_ge _ _)) by lia. f_equal.
  rewrite compact_eq by lia.
  rewrite take_app_length' by (rewrite length_take, length_drop; lia).
  rewrite take_drop_commute. f_equal. f_equal. lia.
Qed.

Lemma Ack_drops_prefix_witness :
  ∃ w' l,
    Ack 2 delivered4 = (Done None, w')
    ∧ GetUnAcked delivered4 = Done l
    ∧ GetUnAcked w' = Done (drop (Z.to_nat (2 - firstSeqNum (ab delivered4) + 1)) l).
Proof.
  refine (Ack_drops_prefix (opts 4) 4 delivered4 2 reach_delivered4
            (few_admissions 4 _) _).
  - lia.
  - vm_compute. split; [discriminate|reflexivity].
Defined.

(** The counters after a valid ack. *)
Lemma Ack_valid_fields o n w seq :
  reach o n w → 1 + Z.of_nat n < U64.modulus →
  firstSeqNum (ab w) <= seq < firstSeqNum (ab w) + nextIndexToDeliver (ab w) →
  ∃ w', Ack seq w = (Done None, w')
    ∧ firstSeqNum (ab w') = seq + 1
    ∧ nextIndexFree (ab w') = nextIndexFree (ab w) - (seq - firstSeqNum (ab w) + 1)
    ∧ nextIndexToDeliver (ab w')
      = nextIndexToDeliver (ab w) - (seq - firstSeqNum (ab w) + 1).
Proof.
  intros Hw Hn Hseq.
  destruct (valid_seq_passes o n w seq Hw Hn Hseq) as (_ & _ & Hsub).
  pose proof (reach_NoWrap _ _ _ Hw Hn) as (Hf & Hsum & Hm).
  destruct (quiescent_invariants_aux o n w Hw Hn) as (U1 & U2 & U3 & _).
  destruct (Ack_same_store_hook w) as [Hh Hb].
  eexists. split; [exact (Ack_valid o n w seq Hw Hn Hseq)|].
  unfold acked. rewrite Hb. simpl. rewrite Hsub.
  split; [unfold U64.add; apply wrap_small; lia|]. split; lia.
Qed.



(** X11.  An ack releases the backpressure.  After a valid Ack, on a buffer
    of capacity 2 or more, an Add of a message that exists, whose deadline
    has not passed when the loop first checks it (as with timeout 0, which
    sets none), returns true in its first turn, without a call of
    on_backpressure, however full the buffer was. *)
Theorem Ack_then_Add_admits o n w seq e m timeout lag fuel :
  reach o n w → 1 + Z.of_nat n < U64.modulus → 2 <= capacity_of o →
  firstSeqNum (ab w) <= seq < firstSeqNum (ab w) + nextIndexToDeliver (ab w) →
  heap w !! e = Some m → in_time timeout lag →
  ∃ w1 w2,
    Ack seq w = (Done None, w1)
    ∧ Add e timeout lag (S fuel) w1 = (Done true, w2)
    ∧ calls w2 = calls w1
    ∧ nextIndexFree (ab w2)
      = nextIndexFree (ab w) - (seq - firstSeqNum (ab w) + 1) + 1.
Proof.
  intros Hw Hn Hc Hseq Hm Ht.
  pose proof (reach_NoWrap _ _ _ Hw Hn) as (Hf & Hsum & Hmod).
  destruct (quiescent_invariants_aux o n w Hw Hn) as (U1 & U2 & U3 & _).
  assert (Hr : U64.in_range seq) by (unfold U64.in_range; lia).
  destruct (Ack_valid_fields o n w seq Hw Hn Hseq) as (w1 & HA & F1 & F2 & F3).
  pose proof (reach_Ack o n w seq None w1 Hw Hr HA) as Hw1.
  pose proof (reach_Inv _ _ _ Hw1) as HI1.
  destruct (reach_configured _ _ _ Hw1) as (Hc1 & _).
  assert (Hh1 : heap w1 = heap w ∧ clock w1 = clock w).
  { rewrite (Ack_valid o n w seq Hw Hn Hseq) in HA. injection HA as <-.
    unfold acked, call_if_set. destruct (onAck (ab w)); auto. }
  destruct Hh1 as [Hh1 Ht1].
  assert (Ha1 : Event_IsSet (isAvailable (ab w1)) = true).
  { apply (inv_available _ HI1). rewrite Hc1. lia. }
  exists w1, (admitted e m (at_loop timeout lag w1)). split; [exact HA|]. split.
  - apply (Add_room o n w1 e m timeout lag fuel Hw1 Hc Ha1); [|exact Ht].
    rewrite Hh1. exact Hm.
  - destruct (at_loop_same_store timeout lag w1) as [_ Hb].
    unfold admitted. simpl. rewrite Hb, F2. split; [|reflexivity].
    unfold at_loop. destruct (timeout =? 0); reflexivity.
Qed.

Lemma Ack_then_Add_admits_witness :
  ∃ w1 w2,
    Ack 2 delivered4 = (Done None, w1)
    ∧ Add 5%nat 1000 100 (S 0) w1 = (Done true, w2)
    ∧ calls w2 = calls w1
    ∧ nextIndexFree (ab w2)
      = nextIndexFree (ab delivered4) - (2 - firstSeqNum (ab delivered4) + 1) + 1.
Proof.
  refine (Ack_then_Add_admits (opts 4) 4 delivered4 2 5%nat (blank 50) 1000 100 0%nat
            reach_delivered4 (few_admissions 4 _) _ _ _ _).
  - lia.
  - vm_compute. discriminate.
  - vm_compute. split; [discriminate|reflexivity].
  - vm_compute. reflexivity.
  - right. lia.
Defined.

(** X16.  While a slot behind the cursor exists (the cursor is below the
    capacity), Ack returns an error exactly for the sequence numbers
    outside [first_seq, first_seq + deliver_cursor), and then changes
    neither the messages nor the buffer. *)
Theorem Ack_refuses_exactly_outside o n w seq :
  reach o n w → 1 + Z.of_nat n < U64.modulus → U64.in_range seq →
  nextIndexToDeliver (ab w) < cap (ab w) →
  (∃ err w', Ack seq w = (Done (Some err), w') ∧ heap w' = heap w ∧ ab w' = ab w)
  ↔ ¬ (firstSeqNum (ab w) <= seq < firstSeqNum (ab w) + nextIndexToDeliver (ab w)).
Proof.
  intros Hw Hn Hseq Hcur.
  exact (Ack_rejects_iff o n w seq Hw Hn Hseq Hcur).
Qed.

Lemma Ack_refuses_exactly_outside_witness :
  (∃ err w', Ack 15 full4 = (Done (Some err), w') ∧ heap w' = heap full4 ∧ ab w' = ab full4)
  ↔ ¬ (firstSeqNum (ab full4) <= 15 < firstSeqNum (ab full4) + nextIndexToDeliver (ab full4)).
Proof.
  refine (Ack_refuses_exactly_outside (opts 4) 4 full4 15 reach_full4
            (few_admissions 4 _) _ _).
  - lia.
  - unfold U64.in_range. rewrite modulus_eq. lia.
  - vm_compute. reflexivity.
Defined.

(** ** The sequence numbers and the flags *)

(** X14.  The messages are numbered in the order of their admission,
    without a gap: the Add that follows n admissions gives its message the
    number n + 1 and leaves next_seq at n + 2. *)
Theorem Add_numbers_consecutively o n w e timeout lag fuel w' :
  reach o n w → 2 + Z.of_nat n < U64.modulus →
  Add e timeout lag fuel w = (Done true, w') →
  nextSeqNum (ab w) = 1 + Z.of_nat n
  ∧ nextSeqNum (ab w') = 2 + Z.of_nat n
  ∧ ∃ m', heap w' !! e = Some m' ∧ SeqNum m' = 1 + Z.of_nat n.
Proof.
  intros Hw Hn HA. pose proof (reach_Inv _ _ _ Hw) as HI.
  assert (Hn' : 1 + Z.of_nat n < U64.modulus) by lia.
  pose proof (reach_NoWrap _ _ _ Hw Hn') as (Hf & Hsum & _).
  destruct (quiescent_invariants_aux o n w Hw Hn') as (_ & U2 & _).
  destruct (Add_Done_true _ _ _ _ _ _ HI HA) as (w1 & m & [Hh Hb] & Hm & Ha & Hz & ->).
  split; [lia|]. unfold admitted. simpl. rewrite Hb. split.
  - unfold U64.add. rewrite wrap_small; lia.
  - eexists. split; [apply lookup_insert_eq|]. simpl. lia.
Qed.

Lemma Add_numbers_consecutively_witness :
  nextSeqNum (ab five4) = 1 + Z.of_nat 5
  ∧ nextSeqNum (ab (snd (Add 6%nat 1000 100 1%nat five4))) = 2 + Z.of_nat 5
  ∧ ∃ m', heap (snd (Add 6%nat 1000 100 1%nat five4)) !! 6%nat = Some m'
      ∧ SeqNum m' = 1 + Z.of_nat 5.
Proof.
  refine (Add_numbers_consecutively (opts 4) 5 five4 6%nat 1000 100 1%nat _ reach_five4 _ _).
  - rewrite modulus_eq. lia.
  - vm_compute. reflexivity.
Defined.

(** The flags on the stride are kept by every call. *)
Lemma reach_stride_flagged o n w : reach o n w → stride_flagged w.
Proof.
  induction 1 as [b h t Hr Hb|n w d Hw IH _|n w l m Hw IH Hl
                 |n w e timeout lag fuel w' Hw IH Hfresh HA
                 |n w e timeout lag fuel r w' Hw IH HA Hr
                 |n w seq r w' Hw IH Hseq HA|n w timeout r w' Hw IH HN
                 |n w Hw IH|n w Hw IH].
  - destruct (NewAckBuffer_Done o b Hr Hb) as (-> & _).
    intros i p m Hi. simpl in Hi. lia.
  - exact IH.
  - intros i p m' Hi Hp Hm'. simpl in *.
    destruct (decide (l = p)) as [->|Hne].
    + pose proof (reach_Inv _ _ _ Hw) as HI.
      destruct (inv_slots _ HI i Hi) as (p' & m'' & Hp' & Hm'' & _).
      congruence.
    + rewrite lookup_insert_ne in Hm' by exact Hne. exact (IH i p m' Hi Hp Hm').
  - pose proof (reach_Inv _ _ _ Hw) as HI.
    destruct (Add_Done_true _ _ _ _ _ _ HI HA) as (w1 & m & [Hh Hb] & Hm & Ha & Hz & ->).
    pose proof (proj1 (inv_available _ HI) Ha) as Hroom. unfold cap in Hroom.
    pose proof (inv_cursor _ HI) as Hc.
    intros i p m' Hi Hp Hm'. unfold admitted in *. simpl in *. rewrite Hb, Hh in *.
    destruct (decide (Z.of_nat i = nextIndexFree (ab w))) as [Heq|Hne].
    + replace (Z.to_nat (nextIndexFree (ab w))) with i in Hp by lia.
      rewrite list_lookup_insert_eq in Hp by lia. injection Hp as <-.
      rewrite lookup_insert_eq in Hm'. injection Hm' as <-. simpl.
      intros Hmod. rewrite Hmod. reflexivity.
    + rewrite list_lookup_insert_ne in Hp by lia.
      assert (p ≠ e).
      { intros ->. apply Hfresh. eapply list_elem_of_lookup_2. exact Hp. }
      rewrite lookup_insert_ne in Hm' by auto.
      apply (IH i p m'); [lia|exact Hp|exact Hm'].
  - destruct (Add_not_admitted _ _ _ _ _ _ _ HA Hr) as [Hh Hb].
    unfold stride_flagged. rewrite Hh, Hb. exact IH.
  - pose proof (reach_Inv _ _ _ Hw) as HI. unfold Ack in HA.
    pose proof (Ack_same_store_hook w) as Hs.
    pose proof (Inv_same_store _ _ Hs HI) as HI1. destruct Hs as [Hh Hb].
    destruct (Ack_locked_Done _ _ _ _ HI1 HA) as [[_ ->]|(_ & -> & Hidx & _)].
    + unfold stride_flagged. rewrite Hh, Hb. exact IH.
    + rewrite Hb in Hidx.
      pose proof (inv_cursor _ HI) as Hc. pose proof (inv_free _ HI) as Hf.
      unfold cap in Hf.
      assert (H0 : 0 <= U64.sub seq (firstSeqNum (ab w))) by apply wrap_range.
      intros i p m Hi Hp Hm. unfold acked in *. simpl in *. rewrite Hb, Hh in *.
      rewrite compact_lookup in Hp by lia.
      rewrite decide_True in Hp by lia.
      refine (IH (i + Z.to_nat (U64.sub seq (firstSeqNum (ab w)) + 1))%nat p m _ Hp Hm).
      lia.
  - pose proof (reach_Inv _ _ _ Hw) as HI.
    destruct (GetNextToDeliver_unfold timeout w) as (w1 & Hs & _ & [[E _]|[E [-> _]]]);
      rewrite E in HN.
    + injection HN as <- <-. destruct Hs as [Hh Hb].
      unfold stride_flagged. rewrite Hh, Hb. exact IH.
    + destruct (GetNextToDeliver_locked_Done _ _ _ HI HN)
        as [(_ & -> & _)|(_ & _ & ->)]; exact IH.
  - unfold stride_flagged, ResetDelivery in *. simpl.
    destruct (nextIndexFree (ab w) <=? 0); exact IH.
  - exact IH.
Qed.

(** X12.  Whatever flags the producer set, every message the buffer holds
    whose sequence number is a multiple of ack_every carries the flag
    ack_requested, in every state the client reaches. *)
Theorem held_multiples_are_flagged o n w (i : nat) p m :
  reach o n w →
  Z.of_nat i < nextIndexFree (ab w) →
  buff (ab w) !! i = Some (Some p) → heap w !! p = Some m →
  SeqNum m mod ackEvery (ab w) = 0 →
  AckRequested m = true.
Proof. intros Hw. exact (reach_stride_flagged o n w Hw i p m). Qed.

Lemma held_multiples_are_flagged_witness :
  AckRequested (mkDataMessage 4 true 40) = true.
Proof.
  refine (held_multiples_are_flagged (opts 4) 5 five4 1%nat 4%nat
            (mkDataMessage 4 true 40) reach_five4 _ _ _ _);
    vm_compute; reflexivity.
Defined.

(** X13.  A buffer that holds at least ack_every messages has asked for an
    ack: one of its first ack_every messages carries the flag, and its
    sequence number is a multiple of ack_every.  So a full buffer of
    capacity 2 or more always holds a message whose ack, once it is
    delivered, frees room. *)
Theorem backlog_holds_flagged_message o n w :
  reach o n w → 1 + Z.of_nat n < U64.modulus → 2 <= capacity_of o →
  ackEvery (ab w) <= nextIndexFree (ab w) →
  ackEvery (ab w) <= cap (ab w)
  ∧ ∃ (i : nat) p m,
      Z.of_nat i < ackEvery (ab w)
      ∧ buff (ab w) !! i = Some (Some p) ∧ heap w !! p = Some m
      ∧ SeqNum m = firstSeqNum (ab w) + Z.of_nat i
      ∧ SeqNum m mod ackEvery (ab w) = 0
      ∧ AckRequested m = true.
Proof.
  intros Hw Hn Hc Hnf.
  destruct (reach_configured _ _ _ Hw) as (Hcap & Hev & _).
  destruct (quiescent_invariants_aux o n w Hw Hn) as (_ & _ & U3 & U4 & _).
  assert (H1 : 1 <= ackEvery (ab w)).
  { rewrite Hev. apply Z.div_le_lower_bound; lia. }
  split; [lia|].
  set (j := (- firstSeqNum (ab w)) mod ackEvery (ab w)).
  assert (Hj : 0 <= j < ackEvery (ab w)) by (apply Z.mod_pos_bound; lia).
  destruct (U4 (Z.to_nat j)) as (p & m & Hp & Hm & Hs); [lia|].
  assert (Hmod : SeqNum m mod ackEvery (ab w) = 0).
  { rewrite Hs, Z2Nat.id by lia. unfold j.
    rewrite Zplus_mod_idemp_r. rewrite Z.add_opp_diag_r. apply Z.mod_0_l. lia. }
  exists (Z.to_nat j), p, m. split; [lia|]. split; [exact Hp|]. split; [exact Hm|].
  split; [exact Hs|]. split; [exact Hmod|].
  apply (reach_stride_flagged o n w Hw (Z.to_nat j) p m); [lia|exact Hp|exact Hm|exact Hmod].
Qed.

Lemma backlog_holds_flagged_message_witness :
  ackEvery (ab full4) <= cap (ab full4)
  ∧ ∃ (i : nat) p m,
      Z.of_nat i < ackEvery (ab full4)
      ∧ buff (ab full4) !! i = Some (Some p) ∧ heap full4 !! p = Some m
      ∧ SeqNum m = firstSeqNum (ab full4) + Z.of_nat i
      ∧ SeqNum m mod ackEvery (ab full4) = 0
      ∧ AckRequested m = true.
Proof.
  refine (backlog_holds_flagged_message (opts 4) 4 full4 reach_full4
            (few_admissions 4 _) _ _).
  - lia.
  - vm_compute. discriminate.
  - vm_compute. discriminate.
Defined.

(** The flag is never lowered: a message that was acknowledged with its
    flag set keeps the flag when it is admitted again, on a number off the
    stride. *)
Example flag_survives_readmission :
  let w := after (admit4 ++ deliver4 ++ [CallAck 2; CallAdd 2 1000 100]) (fresh 4) in
  heap w !! 2%nat = Some (mkDataMessage 5 true 20)
  ∧ ackEvery (ab w) = 2.
Proof. vm_compute. split; reflexivity. Qed.

(** ** The new buffer, the closed buffer *)

(** X15.  NewAckBuffer, when it returns, returns a buffer of the capacity
    asked for (5000 when 0 was asked), with ack_every = floor(capacity/2)
    in spite of the detour through float64.  The buffer is empty: GetUnAcked
    lists nothing, GetNextToDeliver waits out its timeout and returns nil,
    every Ack is refused with an error, and ResetDelivery changes nothing. *)
Theorem NewAckBuffer_is_empty o b h t timeout :
  U64.in_range (BufferCapacity o) → NewAckBuffer o = Done b →
  cap b = (if BufferCapacity o =? 0 then 5000 else BufferCapacity o)
  ∧ ackEvery b = cap b / 2
  ∧ (∀ i : nat, Z.of_nat i < cap b → buff b !! i = Some None)
  ∧ GetUnAcked (mkWorld h b t []) = Done []
  ∧ GetNextToDeliver timeout (mkWorld h b t [])
    = (Done None, mkWorld h b (t + Z.max 0 timeout) [])
  ∧ (∀ seq, U64.in_range seq →
       ∃ err w', Ack seq (mkWorld h b t []) = (Done (Some err), w')
         ∧ heap w' = h ∧ ab w' = b)
  ∧ ResetDelivery (mkWorld h b t []) = mkWorld h b t [].
Proof.
  intros Hr Hb.
  pose proof (reach_new o b h t Hr Hb) as Hw.
  destruct (NewAckBuffer_Done o b Hr Hb) as (Eb & Hpos & Hmax).
  assert (Hcap : cap b = capacity_of o).
  { rewrite Eb. unfold cap. simpl. rewrite length_replicate. lia. }
  split; [rewrite Hcap; reflexivity|].
  split; [rewrite Hcap, Eb; reflexivity|].
  split.
  { intros i Hi. rewrite Eb. simpl. apply lookup_replicate_2. lia. }
  split.
  { unfold GetUnAcked. simpl. rewrite (proj2 (Z.ltb_ge _ _)) by (rewrite Hcap, Eb; simpl; lia).
    rewrite Eb. reflexivity. }
  split; [rewrite Eb; reflexivity|].
  split.
  - intros seq Hseq.
    apply (Ack_rejects_iff o 0 (mkWorld h b t []) seq Hw (few_admissions 0 ltac:(lia)) Hseq).
    + simpl. rewrite Hcap. rewrite Eb. simpl. lia.
    + rewrite Eb. simpl. lia.
  - rewrite Eb. reflexivity.
Qed.

Lemma NewAckBuffer_is_empty_witness :
  cap (ab (fresh 4)) = (if BufferCapacity (opts 4) =? 0 then 5000 else BufferCapacity (opts 4))
  ∧ ackEvery (ab (fresh 4)) = cap (ab (fresh 4)) / 2
  ∧ (∀ i : nat, Z.of_nat i < cap (ab (fresh 4)) → buff (ab (fresh 4)) !! i = Some None)
  ∧ GetUnAcked (mkWorld six (ab (fresh 4)) 0 []) = Done []
  ∧ GetNextToDeliver 1000 (mkWorld six (ab (fresh 4)) 0 [])
    = (Done None, mkWorld six (ab (fresh 4)) (0 + Z.max 0 1000) [])
  ∧ (∀ seq, U64.in_range seq →
       ∃ err w', Ack seq (mkWorld six (ab (fresh 4)) 0 []) = (Done (Some err), w')
         ∧ heap w' = six ∧ ab w' = ab (fresh 4))
  ∧ ResetDelivery (mkWorld six (ab (fresh 4)) 0 []) = mkWorld six (ab (fresh 4)) 0 [].
Proof.
  refine (NewAckBuffer_is_empty (opts 4) (ab (fresh 4)) six 0 1000 _ _).
  - unfold U64.in_range. rewrite modulus_eq. simpl. lia.
  - vm_compute. reflexivity.
Defined.

(** The capacity 0 of the options stands for 5000 slots and a stride of
    2500. *)
Example NewAckBuffer_default :
  ∃ b, NewAckBuffer (mkOptions 0 None None) = Done b
    ∧ length (buff b) = 5000%nat ∧ ackEvery b = 2500.
Proof. eexists. split; [reflexivity|]. split; vm_compute; reflexivity. Qed.

(** X17.  Close stops nothing but the polls of Add: on a closed buffer Ack,
    GetNextToDeliver, GetUnAcked and ResetDelivery answer and act as on
    the running one, and an Add that finds room admits as before. *)
Theorem Close_changes_no_answer w :
  (∀ seq, Ack seq (Close w) = (fst (Ack seq w), Close (snd (Ack seq w))))
  ∧ (∀ timeout,
       GetNextToDeliver timeout (Close w)
       = (fst (GetNextToDeliver timeout w), Close (snd (GetNextToDeliver timeout w))))
  ∧ GetUnAcked (Close w) = GetUnAcked w
  ∧ ResetDelivery (Close w) = Close (ResetDelivery w)
  ∧ (Event_IsSet (isAvailable (ab w)) = true → ∀ e timeout lag fuel,
       Add e timeout lag fuel (Close w)
       = (fst (Add e timeout lag fuel w), Close (snd (Add e timeout lag fuel w)))).
Proof.
  destruct w as [h b t c]. destruct b as [r a bf nf fs ns ev cur rd bp oa].
  split; [|split; [|split; [|split]]].
  - intros seq. unfold Ack, Ack_locked, Close, call_if_set, before_first, after_next,
      cap. simpl.
    destruct oa; simpl;
      repeat match goal with
             | |- context [if ?c then _ else _] => destruct c; simpl
             | |- context [match ?x with Some _ => _ | None => _ end] =>
                 destruct x; simpl
             end; reflexivity.
  - intros timeout. unfold GetNextToDeliver, GetNextToDeliver_locked, Event_WaitFor,
      Event_IsSet, Close. simpl.
    destruct rd; simpl; [|reflexivity].
    destruct (bf !! Z.to_nat cur); simpl; [|reflexivity].
    destruct (nf <=? U64.add cur 1); reflexivity.
  - reflexivity.
  - unfold ResetDelivery, Close. simpl. destruct (nf <=? 0); reflexivity.
  - simpl. unfold Event_IsSet. intros -> e timeout lag fuel.
    unfold Add. simpl.
    destruct (timeout =? 0).
    + destruct fuel as [|fuel]; [reflexivity|]. simpl.
      unfold Add_wait, Event_WaitFor, Event_IsSet, Close. simpl.
      unfold Add_locked, cap. simpl.
      destruct (h !! e); simpl; [|reflexivity].
      repeat match goal with
             | |- context [if ?c then _ else _] => destruct c; simpl
             end; reflexivity.
    + destruct fuel as [|fuel]; [reflexivity|]. simpl.
      unfold Add_wait, Event_WaitFor, Event_IsSet, Close. simpl.
      destruct (t + timeout <? t + lag); simpl; [reflexivity|].
      unfold Add_locked, cap. simpl.
      destruct (h !! e); simpl; [|reflexivity].
      repeat match goal with
             | |- context [if ?c then _ else _] => destruct c; simpl
             end; reflexivity.
Qed.

Lemma Close_changes_no_answer_witness :
  Add 1%nat 1000 100 1%nat (Close (fresh 4))
  = (fst (Add 1%nat 1000 100 1%nat (fresh 4)), Close (snd (Add 1%nat 1000 100 1%nat (fresh 4)))).
Proof.
  refine (proj2 (proj2 (proj2 (proj2 (Close_changes_no_answer (fresh 4))))) _
            1%nat 1000 100 1%nat).
  reflexivity.
Defined.

(** ** Admission, delivery and ack in a row *)

(** One delivery, when a message is left to deliver. *)
Lemma deliver_one timeout w :
  Inv w → nextIndexToDeliver (ab w) < nextIndexFree (ab w) →
  ∃ x w', GetNextToDeliver timeout w = (Done x, w')
    ∧ buff (ab w) !! Z.to_nat (nextIndexToDeliver (ab w)) = Some x
    ∧ Inv w'
    ∧ nextIndexToDeliver (ab w') = nextIndexToDeliver (ab w) + 1
    ∧ buff (ab w') = buff (ab w)
    ∧ nextIndexFree (ab w') = nextIndexFree (ab w)
    ∧ firstSeqNum (ab w') = firstSeqNum (ab w)
    ∧ heap w' = heap w ∧ clock w' = clock w.
Proof.
  intros HI Hlt.
  destruct (deliver_n_run timeout 1 w HI) as (w' & E & H); [lia|].
  simpl in E. destruct (GetNextToDeliver timeout w) as [[x| |] w1]; try discriminate.
  injection E as E <-.
  assert (Hx : buff (ab w) !! Z.to_nat (nextIndexToDeliver (ab w)) = Some x).
  { destruct (drop (Z.to_nat (nextIndexToDeliver (ab w))) (buff (ab w))) as [|y l] eqn:Ed;
      [discriminate|].
    simpl in E. rewrite take_0 in E. injection E as ->.
    rewrite <- (Nat.add_0_r (Z.to_nat _)). rewrite <- lookup_drop, Ed. reflexivity. }
  exists x, w1. split; [reflexivity|]. split; [exact Hx|].
  change (Z.of_nat 1) with 1 in H. exact H.
Qed.

(** X18.  What is admitted is what is delivered next.  When everything the
    buffer holds has been delivered, the message of an Add that returns
    true is the one the next GetNextToDeliver returns, at once; after it
    everything is delivered again and the ready latch is cleared. *)
Theorem Add_then_deliver o n w e timeout lag fuel w' t :
  reach o n w → Some e ∉ buff (ab w) →
  nextIndexToDeliver (ab w) = nextIndexFree (ab w) →
  Add e timeout lag fuel w = (Done true, w') →
  ∃ w'', GetNextToDeliver t w' = (Done (Some e), w'')
    ∧ clock w'' = clock w'
    ∧ nextIndexToDeliver (ab w'') = nextIndexFree (ab w'')
    ∧ Event_IsSet (isReadyToDeliver (ab w'')) = false
    ∧ buff (ab w'') = buff (ab w') ∧ heap w'' = heap w'.
Proof.
  intros Hw Hfresh Hall HA.
  pose proof (reach_Inv _ _ _ Hw) as HI.
  pose proof (reach_Add o n w e timeout lag fuel w' Hw Hfresh HA) as Hw'.
  pose proof (reach_Inv _ _ _ Hw') as HI'.
  destruct (Add_Done_true _ _ _ _ _ _ HI HA) as (w1 & m & [Hh Hb] & Hm & Ha & Hz & E').
  pose proof (proj1 (inv_available _ HI) Ha) as Hroom. unfold cap in Hroom.
  pose proof (inv_cursor _ HI) as Hc.
  assert (F : nextIndexToDeliver (ab w') = nextIndexFree (ab w)
              ∧ nextIndexFree (ab w') = nextIndexFree (ab w) + 1
              ∧ buff (ab w') !! Z.to_nat (nextIndexFree (ab w)) = Some (Some e)).
  { rewrite E'. unfold admitted. simpl. rewrite Hb.
    split; [exact Hall|]. split; [reflexivity|].
    apply list_lookup_insert_eq. lia. }
  destruct F as (F1 & F2 & F3).
  destruct (deliver_one t w' HI') as (x & w'' & E & Hx & HI'' & C1 & C2 & C3 & C4 & C5 & C6);
    [lia|].
  rewrite F1, F3 in Hx. injection Hx as <-.
  exists w''. split; [exact E|]. split; [exact C6|]. split; [lia|].
  split; [|auto].
  destruct (Event_IsSet (isReadyToDeliver (ab w''))) eqn:Er; [|reflexivity].
  apply (inv_ready _ HI'') in Er. lia.
Qed.

Lemma Add_then_deliver_witness :
  ∃ w'', GetNextToDeliver 1000 (snd (Add 5%nat 1000 100 1%nat (snd (Ack 2 delivered4))))
         = (Done (Some 5%nat), w'')
    ∧ clock w'' = clock (snd (Add 5%nat 1000 100 1%nat (snd (Ack 2 delivered4))))
    ∧ nextIndexToDeliver (ab w'') = nextIndexFree (ab w'')
    ∧ Event_IsSet (isReadyToDeliver (ab w'')) = false
    ∧ buff (ab w'') = buff (ab (snd (Add 5%nat 1000 100 1%nat (snd (Ack 2 delivered4)))))
    ∧ heap w'' = heap (snd (Add 5%nat 1000 100 1%nat (snd (Ack 2 delivered4)))).
Proof.
  refine (Add_then_deliver (opts 4) 4 (snd (Ack 2 delivered4)) 5%nat 1000 100 1%nat
            (snd (Add 5%nat 1000 100 1%nat (snd (Ack 2 delivered4)))) 1000 _ _ _ _).
  - apply (reach_after 4 (admit4 ++ deliver4 ++ [CallAck 2])); [lia|].
    vm_compute. reflexivity.
  - vm_compute. intros H. repeat (apply elem_of_cons in H as [H|H]; [discriminate|]).
    apply elem_of_nil in H. exact H.
  - vm_compute. reflexivity.
  - vm_compute. reflexivity.
Defined.

(** X19.  With a peer that acknowledges every flagged message as soon as it
    is delivered, Add never meets a full buffer.  From a state where
    everything is delivered, fewer than ack_every messages are held and
    first_seq - 1 is on the stride (the new buffer is such a state), one
    exchange of a message without flag, whose Add finds its deadline not
    passed at the first check of the loop (as with timeout 0, which sets
    none), ends with true in a state of the same kind: the backlog stays
    below ack_every. *)
Theorem exchange_keeps_room o n w e m timeout lag :
  reach o n w → 2 + Z.of_nat n < U64.modulus → 2 <= capacity_of o →
  nextIndexToDeliver (ab w) = nextIndexFree (ab w) →
  nextIndexFree (ab w) < ackEvery (ab w) →
  (firstSeqNum (ab w) - 1) mod ackEvery (ab w) = 0 →
  Some e ∉ buff (ab w) → heap w !! e = Some m → AckRequested m = false →
  in_time timeout lag →
  ∃ w', exchange e timeout lag w = (Done true, w')
    ∧ reach o (S n) w'
    ∧ nextIndexToDeliver (ab w') = nextIndexFree (ab w')
    ∧ nextIndexFree (ab w') < ackEvery (ab w')
    ∧ (firstSeqNum (ab w') - 1) mod ackEvery (ab w') = 0
    ∧ nextIndexFree (ab w') =
        (if decide (nextIndexFree (ab w) + 1 = ackEvery (ab w)) then 0
         else nextIndexFree (ab w) + 1).
Proof.
  intros Hw Hn Hc Hall Hlow Hstride Hfresh Hm Hflag Ht.
  assert (Hn' : 1 + Z.of_nat n < U64.modulus) by lia.
  assert (HSn : 1 + Z.of_nat (S n) < U64.modulus) by lia.
  pose proof (reach_Inv _ _ _ Hw) as HI.
  destruct (reach_configured _ _ _ Hw) as (Hcap & Hev & _).
  pose proof (reach_NoWrap _ _ _ Hw Hn') as (Hf & Hsum & _).
  destruct (quiescent_invariants_aux o n w Hw Hn') as (_ & U2 & U3 & _).
  assert (H1 : 1 <= ackEvery (ab w)) by (rewrite Hev; apply Z.div_le_lower_bound; lia).
  assert (Hle : ackEvery (ab w) <= capacity_of o).
  { rewrite Hev. apply Z.div_le_upper_bound; lia. }
  assert (Ha : Event_IsSet (isAvailable (ab w)) = true).
  { apply (inv_available _ HI). lia. }
  pose proof (Add_room o n w e m timeout lag 0 Hw Hc Ha Hm Ht) as HA.
  pose proof (reach_Add o n w e timeout lag 1 _ Hw Hfresh HA) as Hw1.
  pose proof (reach_Inv _ _ _ Hw1) as HI1.
  destruct (at_loop_same_store timeout lag w) as [Hh0 Hb0].
  set (w1 := admitted e m (at_loop timeout lag w)) in *.
  assert (F : nextIndexToDeliver (ab w1) = nextIndexFree (ab w)
              ∧ nextIndexFree (ab w1) = nextIndexFree (ab w) + 1
              ∧ firstSeqNum (ab w1) = firstSeqNum (ab w)
              ∧ ackEvery (ab w1) = ackEvery (ab w)
              ∧ buff (ab w1) !! Z.to_nat (nextIndexFree (ab w)) = Some (Some e)
              ∧ heap w1 !! e = Some (stamp (nextSeqNum (ab w)) (ackEvery (ab w)) m)).
  { unfold w1, admitted. simpl. rewrite Hb0. repeat split; try assumption.
    - apply list_lookup_insert_eq. unfold cap in Hcap. lia.
    - apply lookup_insert_eq. }
  destruct F as (F1 & F2 & F3 & F4 & F6 & F7).
  destruct (deliver_one timeout w1 HI1) as (x & w2 & E2 & Hx & HI2 & C1 & C2 & C3 & C4 & C5 & C6);
    [lia|].
  rewrite F1, F6 in Hx. injection Hx as <-.
  assert (Hw2 : reach o (S n) w2) by exact (reach_Next o (S n) w1 timeout _ w2 Hw1 E2).
  assert (Hev2 : ackEvery (ab w2) = ackEvery (ab w)).
  { destruct (reach_configured _ _ _ Hw2) as (_ & -> & _). auto. }
  assert (Hseq : nextSeqNum (ab w) = firstSeqNum (ab w) + nextIndexFree (ab w)) by lia.
  assert (Hmod : nextSeqNum (ab w) mod ackEvery (ab w) = 0 ↔
                 nextIndexFree (ab w) + 1 = ackEvery (ab w)).
  { rewrite Hseq.
    replace (firstSeqNum (ab w) + nextIndexFree (ab w))
      with ((nextIndexFree (ab w) + 1) + (firstSeqNum (ab w) - 1)) by lia.
    rewrite <- Zplus_mod_idemp_r, Hstride, Z.add_0_r. split.
    - intros Hz. destruct (Z_lt_le_dec (nextIndexFree (ab w) + 1) (ackEvery (ab w)));
        [rewrite Z.mod_small in Hz by lia; lia|lia].
    - intros ->. apply Z_mod_same_full. }
  unfold exchange. rewrite HA. fold w1. rewrite E2, C5, F7.
  unfold stamp at 1. simpl.
  destruct (nextSeqNum (ab w) mod ackEvery (ab w) =? 0) eqn:Es; bools.
  - apply Hmod in Es.
    assert (Hvalid : firstSeqNum (ab w2) <= nextSeqNum (ab w)
                     < firstSeqNum (ab w2) + nextIndexToDeliver (ab w2)) by lia.
    destruct (Ack_valid_fields o (S n) w2 (nextSeqNum (ab w)) Hw2 HSn Hvalid)
      as (w3 & E3 & G1 & G2 & G3).
    rewrite E3. exists w3.
    assert (Hr : U64.in_range (nextSeqNum (ab w))) by (unfold U64.in_range; lia).
    pose proof (reach_Ack o (S n) w2 _ _ w3 Hw2 Hr E3) as Hw3.
    assert (Hev3 : ackEvery (ab w3) = ackEvery (ab w)).
    { destruct (reach_configured _ _ _ Hw3) as (_ & -> & _). auto. }
    split; [reflexivity|]. split; [exact Hw3|].
    rewrite Hev3, G1, G2, G3. rewrite decide_True by exact Es.
    split; [lia|]. split; [lia|]. split; [|lia].
    replace (nextSeqNum (ab w) + 1 - 1) with (nextSeqNum (ab w)) by lia.
    apply Hmod. exact Es.
  - rewrite Hflag. exists w2.
    assert (Hne : nextIndexFree (ab w) + 1 ≠ ackEvery (ab w))
      by (intros Heq; apply Es, Hmod; exact Heq).
    split; [reflexivity|]. split; [exact Hw2|].
    rewrite Hev2, C1, C3, C4, F1, F2, F3. rewrite decide_False by exact Hne.
    split; [lia|]. split; [lia|]. split; [exact Hstride|lia].
Qed.

Lemma reach_one4 : reach (opts 4) 1 one4.
Proof.
  apply (reach_after 4 [CallAdd 1 1000 100; CallNext 1000]); [lia|].
  vm_compute. reflexivity.
Qed.

(** Two exchanges on capacity 4, where the stride is 2.  On the new buffer
    the message gets the number 1, no flag and no ack, and is kept; after
    it the message gets the number 2 and the flag, the peer acknowledges
    it and the buffer is empty again. *)
Lemma exchange_keeps_room_witness :
  (∃ w', exchange 1%nat 1000 100 (fresh 4) = (Done true, w')
     ∧ reach (opts 4) (S 0) w'
     ∧ nextIndexToDeliver (ab w') = nextIndexFree (ab w')
     ∧ nextIndexFree (ab w') < ackEvery (ab w')
     ∧ (firstSeqNum (ab w') - 1) mod ackEvery (ab w') = 0
     ∧ nextIndexFree (ab w') =
         (if decide (nextIndexFree (ab (fresh 4)) + 1 = ackEvery (ab (fresh 4))) then 0
          else nextIndexFree (ab (fresh 4)) + 1))
  ∧ (∃ w', exchange 2%nat 1000 100 one4 = (Done true, w')
       ∧ reach (opts 4) (S 1) w'
       ∧ nextIndexToDeliver (ab w') = nextIndexFree (ab w')
       ∧ nextIndexFree (ab w') < ackEvery (ab w')
       ∧ (firstSeqNum (ab w') - 1) mod ackEvery (ab w') = 0
       ∧ nextIndexFree (ab w') =
           (if decide (nextIndexFree (ab one4) + 1 = ackEvery (ab one4)) then 0
            else nextIndexFree (ab one4) + 1))
  ∧ nextIndexFree (ab one4) + 1 = ackEvery (ab one4).
Proof.
  assert (Hc : 2 <= capacity_of (opts 4)) by (vm_compute; discriminate).
  assert (Ht : in_time 1000 100) by (right; lia).
  assert (Hn0 : 2 + Z.of_nat 0 < U64.modulus) by (rewrite modulus_eq; lia).
  assert (Hn1 : 2 + Z.of_nat 1 < U64.modulus) by (rewrite modulus_eq; lia).
  assert (Hr0 : reach (opts 4) 0 (fresh 4)) by (apply reach_fresh; lia).
  assert (Hf0 : Some 1%nat ∉ buff (ab (fresh 4))).
  { vm_compute. intros H. repeat (apply elem_of_cons in H as [H|H]; [discriminate|]).
    apply elem_of_nil in H. exact H. }
  assert (Hf1 : Some 2%nat ∉ buff (ab one4)).
  { vm_compute. intros H. repeat (apply elem_of_cons in H as [H|H]; [discriminate|]).
    apply elem_of_nil in H. exact H. }
  assert (Ha0 : nextIndexToDeliver (ab (fresh 4)) = nextIndexFree (ab (fresh 4)))
    by reflexivity.
  assert (Ha1 : nextIndexToDeliver (ab one4) = nextIndexFree (ab one4))
    by (vm_compute; reflexivity).
  assert (Hl0 : nextIndexFree (ab (fresh 4)) < ackEvery (ab (fresh 4)))
    by (vm_compute; reflexivity).
  assert (Hl1 : nextIndexFree (ab one4) < ackEvery (ab one4))
    by (vm_compute; reflexivity).
  assert (Hs0 : (firstSeqNum (ab (fresh 4)) - 1) mod ackEvery (ab (fresh 4)) = 0)
    by reflexivity.
  assert (Hs1 : (firstSeqNum (ab one4) - 1) mod ackEvery (ab one4) = 0)
    by (vm_compute; reflexivity).
  assert (Hm0 : heap (fresh 4) !! 1%nat = Some (blank 10)) by (vm_compute; reflexivity).
  assert (Hm1 : heap one4 !! 2%nat = Some (blank 20)) by (vm_compute; reflexivity).
  split; [|split].
  - exact (exchange_keeps_room (opts 4) 0 (fresh 4) 1%nat (blank 10) 1000 100
             Hr0 Hn0 Hc Ha0 Hl0 Hs0 Hf0 Hm0 eq_refl Ht).
  - exact (exchange_keeps_room (opts 4) 1 one4 2%nat (blank 20) 1000 100
             reach_one4 Hn1 Hc Ha1 Hl1 Hs1 Hf1 Hm1 eq_refl Ht).
  - vm_compute. reflexivity.
Defined.

(** The run of the test: capacity 10, thirty messages, the server acks the
    flagged ones.  Every exchange ends with true and the backlog ends
    empty. *)
Example test_run_of_thirty :
  let w0 := mkWorld thirty (ab (fresh 10)) 0 [] in
  let r := exchanges (seq 1 30) w0 in
  fst r = replicate 30 (Done true)
  ∧ GetUnAcked (snd r) = Done []
  ∧ firstSeqNum (ab (snd r)) = 31
  ∧ calls (snd r) = replicate 6 hookAck.
Proof. vm_compute. repeat split; reflexivity. Qed.
